(** * The texture atlas allocator of contour (terminal_renderer/Atlas.cpp)

    A shallow embedding of [TextureAtlasAllocator] and the properties of its
    packing cursor, its free-list of discarded regions and its backend
    notifications.

    Conventions of the model.
    - C++ [int] is embedded as [Z].  Signed overflow is undefined behaviour
      in C++, so the model describes the runs in which no [int] overflows;
      [advance_within_int] shows that these are all the runs of an allocator
      whose geometry stays below 2^28.
    - [std::map<Size, std::vector<Offset>>] is a [gmap (Z * Z) (list Offset.t)]
      keyed by the exact (width, height), as the spec has it; the vector
      grows at its end ([emplace_back]) and is read and shrunk at its end
      ([back], [pop_back]).
    - [textureInfos_] holds one node per record.  The source identifies a
      record by the address of its node ([&ti == &_info]); the model numbers
      the nodes in allocation order and uses that number as the address.
    - The backend is an external object; the model keeps the log of the
      commands sent to it, oldest first. *)

From Stdlib Require Import ZArith Lia List String.
From stdpp Require Import base option list gmap.

Local Open Scope Z_scope.

(** ** Types declared in Atlas.h *)

(** The pixel format is an enumeration of Atlas.h; only its identity is
    passed around, so it is kept as its tag number. *)
Definition Format : Type := N.

(** [Buffer] is [std::vector<uint8_t>]. *)
Definition Buffer : Type := list Byte.byte.

(** Address of a node of [textureInfos_]. *)
Definition Ptr : Type := nat.

Module Offset.
(** [struct Offset { int i; int x; int y; int z; }], built in [release]
    as [Offset{_info.atlas, _info.x, _info.y, _info.z}]. *)
Record t : Type := mk { i : Z; x : Z; y : Z; z : Z }.
End Offset.

Module TextureInfo.
(** The record built by [appendTextureInfo], field by field.  The four
    normalized coordinates are float quotients in the source; the model
    keeps the numerator and the denominator of each quotient. *)
Record t : Type := mk {
  atlas : Z;
  atlasName : string;
  x : Z;
  y : Z;
  z : Z;
  width : Z;
  height : Z;
  targetWidth : Z;
  targetHeight : Z;
  relativeX : Z * Z;
  relativeY : Z * Z;
  relativeWidth : Z * Z;
  relativeHeight : Z * Z;
  user : Z
}.
End TextureInfo.

(** Commands received by the [AtlasBackend]. *)
Inductive Command : Type :=
| CreateAtlas (atlas : Z)
| DestroyAtlas (atlas : Z)
| UploadTexture (texture : Ptr) (info : TextureInfo.t) (data : Buffer) (format : Format).

(** The constant members of the allocator, set by the constructor. *)
Record Config : Type := mkConfig {
  instanceBaseId_ : Z;
  maxInstances_ : Z;
  depth_ : Z;
  width_ : Z;
  height_ : Z;
  format_ : Format;
  name_ : string
}.

(** The mutable members of the allocator, with the log of the backend and
    the next unused node address. *)
Record State : Type := mkState {
  currentInstanceId_ : Z;
  currentZ_ : Z;
  currentX_ : Z;
  currentY_ : Z;
  maxTextureHeightInCurrentRow_ : Z;
  discarded_ : gmap (Z * Z) (list Offset.t);
  textureInfos_ : list (Ptr * TextureInfo.t);
  nextPtr_ : Ptr;
  atlasBackend_ : list Command
}.

(** Assignments to single members. *)
Definition set_currentInstanceId (v : Z) (s : State) : State :=
  mkState v (currentZ_ s) (currentX_ s) (currentY_ s)
          (maxTextureHeightInCurrentRow_ s) (discarded_ s) (textureInfos_ s)
          (nextPtr_ s) (atlasBackend_ s).

Definition set_currentZ (v : Z) (s : State) : State :=
  mkState (currentInstanceId_ s) v (currentX_ s) (currentY_ s)
          (maxTextureHeightInCurrentRow_ s) (discarded_ s) (textureInfos_ s)
          (nextPtr_ s) (atlasBackend_ s).

Definition set_currentX (v : Z) (s : State) : State :=
  mkState (currentInstanceId_ s) (currentZ_ s) v (currentY_ s)
          (maxTextureHeightInCurrentRow_ s) (discarded_ s) (textureInfos_ s)
          (nextPtr_ s) (atlasBackend_ s).

Definition set_currentY (v : Z) (s : State) : State :=
  mkState (currentInstanceId_ s) (currentZ_ s) (currentX_ s) v
          (maxTextureHeightInCurrentRow_ s) (discarded_ s) (textureInfos_ s)
          (nextPtr_ s) (atlasBackend_ s).

Definition set_maxTextureHeightInCurrentRow (v : Z) (s : State) : State :=
  mkState (currentInstanceId_ s) (currentZ_ s) (currentX_ s) (currentY_ s)
          v (discarded_ s) (textureInfos_ s) (nextPtr_ s) (atlasBackend_ s).

Definition set_discarded (v : gmap (Z * Z) (list Offset.t)) (s : State) : State :=
  mkState (currentInstanceId_ s) (currentZ_ s) (currentX_ s) (currentY_ s)
          (maxTextureHeightInCurrentRow_ s) v (textureInfos_ s)
          (nextPtr_ s) (atlasBackend_ s).

Definition set_textureInfos (v : list (Ptr * TextureInfo.t)) (s : State) : State :=
  mkState (currentInstanceId_ s) (currentZ_ s) (currentX_ s) (currentY_ s)
          (maxTextureHeightInCurrentRow_ s) (discarded_ s) v
          (nextPtr_ s) (atlasBackend_ s).

Definition set_nextPtr (v : Ptr) (s : State) : State :=
  mkState (currentInstanceId_ s) (currentZ_ s) (currentX_ s) (currentY_ s)
          (maxTextureHeightInCurrentRow_ s) (discarded_ s) (textureInfos_ s)
          v (atlasBackend_ s).

(** Sending one command to the backend. *)
Definition send (c : Command) (s : State) : State :=
  mkState (currentInstanceId_ s) (currentZ_ s) (currentX_ s) (currentY_ s)
          (maxTextureHeightInCurrentRow_ s) (discarded_ s) (textureInfos_ s)
          (nextPtr_ s) (atlasBackend_ s ++ [c]).

Module TextureAtlasAllocator.
Section Methods.

(** [HorizontalGap] and [VerticalGap] are constants declared in Atlas.h;
    the model takes them as parameters. *)
Variables HorizontalGap VerticalGap : Z.

Variable cfg : Config.

(** Modelled from the spec: [offset()] is declared in Atlas.h; the
    placement is made at (currentX, currentY, currentLayer) in the current
    instance. *)
Definition offset (s : State) : Offset.t :=
  Offset.mk (currentInstanceId_ s) (currentX_ s) (currentY_ s) (currentZ_ s).

(** Modelled from the spec: [notifyCreateAtlas()] is declared in Atlas.h;
    it asks the backend to create the current instance. *)
Definition notifyCreateAtlas (s : State) : State :=
  send (CreateAtlas (currentInstanceId_ s)) s.

(** The constructor: the current instance starts at the base id and the
    first atlas is requested.  The other members take the default member
    initializers of Atlas.h; the spec gives the initial cursor as x = 0,
    y = 0, layer = 0, and the containers start empty. *)
Definition construct : State :=
  notifyCreateAtlas
    (mkState (instanceBaseId_ cfg) 0 0 0 0 ∅ [] 0%nat []).

(** The destructor: [for (id = instanceBaseId_; id <= currentInstanceId_; ++id)]. *)
Definition destroyCommands (s : State) : list Command :=
  DestroyAtlas <$> seqZ (instanceBaseId_ cfg)
                        (currentInstanceId_ s - instanceBaseId_ cfg + 1).

(** The destructor sends them to the backend. *)
Definition destruct_ (s : State) : State :=
  fold_left (fun st c => send c st) (destroyCommands s) s.

(** [clear()]: the cursor members and the free-map are reset; the live
    records and the backend are left alone. *)
Definition clear (s : State) : State :=
  set_discarded ∅
    (set_maxTextureHeightInCurrentRow 0
       (set_currentY 0
          (set_currentX 0
             (set_currentZ 0
                (set_currentInstanceId (instanceBaseId_ cfg) s))))).

(** The tail of [getOffsetAndAdvance], from [auto const result = offset()]. *)
Definition place (_width _height : Z) (s : State) : option Offset.t * State :=
  let result := offset s in
  let s := set_currentX (currentX_ s + (_width + HorizontalGap)) s in
  let s := set_maxTextureHeightInCurrentRow
             (Z.max (maxTextureHeightInCurrentRow_ s) _height) s in
  (Some result, s).

(** [getOffsetAndAdvance]: the wraps to a new row, layer and instance, with
    [not(a < b)] as [negb (a <? b)]. *)
Definition getOffsetAndAdvance (_width _height : Z) (s : State)
  : option Offset.t * State :=
  if negb (currentX_ s + HorizontalGap + _width <? width_ cfg) then
    let s := set_currentX 0 s in
    let s := set_currentY
               (currentY_ s + (maxTextureHeightInCurrentRow_ s + VerticalGap)) s in
    if negb (currentY_ s + _height <? height_ cfg) then
      let s := set_currentY 0 s in
      let s := set_maxTextureHeightInCurrentRow 0 s in
      let s := set_currentZ (currentZ_ s + 1) s in
      if negb (currentZ_ s <? depth_ cfg) then
        let s := set_currentZ 0 s in
        if negb (currentInstanceId_ s + 1 <? instanceBaseId_ cfg + maxInstances_ cfg) then
          let s := set_currentX (width_ cfg) s in
          let s := set_currentY (height_ cfg) s in
          let s := set_currentZ (depth_ cfg) s in
          (None, s)
        else
          let s := set_currentInstanceId (currentInstanceId_ s + 1) s in
          let s := notifyCreateAtlas s in
          place _width _height s
      else place _width _height s
    else place _width _height s
  else place _width _height s.

(** [appendTextureInfo]: the record is appended to [textureInfos_] in a
    node of its own. *)
Definition appendTextureInfo
           (_width _height _targetWidth _targetHeight : Z)
           (_offset : Offset.t) (_user : Z) (s : State)
  : (Ptr * TextureInfo.t) * State :=
  let info :=
    TextureInfo.mk (Offset.i _offset) (name_ cfg)
                   (Offset.x _offset) (Offset.y _offset) (Offset.z _offset)
                   _width _height _targetWidth _targetHeight
                   (Offset.x _offset, width_ cfg)
                   (Offset.y _offset, height_ cfg)
                   (_width, width_ cfg)
                   (_height, height_ cfg)
                   _user in
  let node := (nextPtr_ s, info) in
  (node, set_nextPtr (S (nextPtr_ s)) (set_textureInfos (textureInfos_ s ++ [node]) s)).

(** The part of [insert] after the free-map lookup. *)
Definition insertFresh
           (_width _height _targetWidth _targetHeight : Z)
           (_format : Format) (_data : Buffer) (_user : Z) (s : State)
  : option (Ptr * TextureInfo.t) * State :=
  if (_height >? height_ cfg) || (_width >? width_ cfg) then (None, s)
  else
    match getOffsetAndAdvance _width _height s with
    | (None, s) => (None, s)
    | (Some targetOffset, s) =>
        let '(node, s) :=
          appendTextureInfo _width _height _targetWidth _targetHeight
                            targetOffset _user s in
        (Some node, send (UploadTexture (fst node) (snd node) _data _format) s)
    end.

(** [insert]: the free-map is consulted first; a hit takes the back of the
    vector of the size and erases the entry when the vector becomes empty. *)
Definition insert
           (_width _height _targetWidth _targetHeight : Z)
           (_format : Format) (_data : Buffer) (_user : Z) (s : State)
  : option (Ptr * TextureInfo.t) * State :=
  match discarded_ s !! (_width, _height) with
  | Some discardsForGivenSize =>
      match last discardsForGivenSize with
      | Some back =>
          let '(node, s) :=
            appendTextureInfo _width _height _targetWidth _targetHeight
                              back _user s in
          let rest := removelast discardsForGivenSize in
          let s :=
            match rest with
            | [] => set_discarded (delete (_width, _height) (discarded_ s)) s
            | _ => set_discarded (<[(_width, _height) := rest]> (discarded_ s)) s
            end in
          (Some node, send (UploadTexture (fst node) (snd node) _data _format) s)
      | None =>
          insertFresh _width _height _targetWidth _targetHeight
                      _format _data _user s
      end
  | None =>
      insertFresh _width _height _targetWidth _targetHeight
                  _format _data _user s
  end.

(** [textureInfos_.erase(i)] for the iterator [i] found by address. *)
Fixpoint eraseNode (p : Ptr) (l : list (Ptr * TextureInfo.t))
  : list (Ptr * TextureInfo.t) :=
  match l with
  | [] => []
  | n :: l => if Nat.eqb (fst n) p then l else n :: eraseNode p l
  end.

(** [std::find_if] over the nodes, by address. *)
Definition findNode (p : Ptr) (s : State) : option TextureInfo.t :=
  snd <$> List.find (fun n => Nat.eqb (fst n) p) (textureInfos_ s).

(** [release]: a record found by address files its offset under its size
    and leaves [textureInfos_]; any other address changes nothing. *)
Definition release (_info : Ptr) (s : State) : State :=
  match findNode _info s with
  | Some ti =>
      let key := (TextureInfo.width ti, TextureInfo.height ti) in
      let discardsForGivenSize := default [] (discarded_ s !! key) in
      let back := Offset.mk (TextureInfo.atlas ti) (TextureInfo.x ti)
                            (TextureInfo.y ti) (TextureInfo.z ti) in
      let s := set_discarded
                 (<[key := discardsForGivenSize ++ [back]]> (discarded_ s)) s in
      set_textureInfos (eraseNode _info (textureInfos_ s)) s
  | None => s
  end.

End Methods.
End TextureAtlasAllocator.

(** ** Runs of the allocator *)

(** The five members of the packing cursor. *)
Definition cursor (s : State) : Z * Z * Z * Z * Z :=
  (currentInstanceId_ s, currentZ_ s, currentX_ s, currentY_ s,
   maxTextureHeightInCurrentRow_ s).

(** The sentinel position of an exhausted allocator. *)
Definition cursorFull (cfg : Config) (s : State) : Prop :=
  currentX_ s = width_ cfg /\ currentY_ s = height_ cfg /\ currentZ_ s = depth_ cfg.

(** One call made by a client of the allocator. *)
Inductive Op : Type :=
| OpInsert (_width _height _targetWidth _targetHeight : Z)
           (_format : Format) (_data : Buffer) (_user : Z)
| OpRelease (_info : Ptr)
| OpClear.

(** The calls a run without [clear] excludes. *)
Definition isClear (op : Op) : bool :=
  match op with OpClear => true | _ => false end.

(** Image dimensions are not negative. *)
Definition sizeOk (op : Op) : Prop :=
  match op with
  | OpInsert w h _ _ _ _ _ => 0 <= w /\ 0 <= h
  | _ => True
  end.

Section Runs.

Variables HorizontalGap VerticalGap : Z.
Variable cfg : Config.

Definition exec (op : Op) (s : State) : option (Ptr * TextureInfo.t) * State :=
  match op with
  | OpInsert w h tw th f d u =>
      TextureAtlasAllocator.insert HorizontalGap VerticalGap cfg w h tw th f d u s
  | OpRelease p => (None, TextureAtlasAllocator.release p s)
  | OpClear => (None, TextureAtlasAllocator.clear cfg s)
  end.

(** The state after a sequence of calls, and the records its successful
    inserts returned, oldest first. *)
Fixpoint run (ops : list Op) (s : State) : State :=
  match ops with
  | [] => s
  | op :: ops => run ops (snd (exec op s))
  end.

Fixpoint placements (ops : list Op) (s : State) : list TextureInfo.t :=
  match ops with
  | [] => []
  | op :: ops =>
      match exec op s with
      | (Some node, s) => snd node :: placements ops s
      | (None, s) => placements ops s
      end
  end.

(** A state of a live allocator: constructed, then used. *)
Definition reachable (s : State) : Prop :=
  exists ops, s = run ops (TextureAtlasAllocator.construct cfg).

End Runs.

(** ** Geometry of placements *)

Definition offsetOf (ti : TextureInfo.t) : Offset.t :=
  Offset.mk (TextureInfo.atlas ti) (TextureInfo.x ti)
            (TextureInfo.y ti) (TextureInfo.z ti).

(** Two records overlap when they lie in the same instance and layer and
    their half-open (x, y) extents intersect. *)
Definition overlap (a b : TextureInfo.t) : Prop :=
  TextureInfo.atlas a = TextureInfo.atlas b /\
  TextureInfo.z a = TextureInfo.z b /\
  TextureInfo.x a < TextureInfo.x b + TextureInfo.width b /\
  TextureInfo.x b < TextureInfo.x a + TextureInfo.width a /\
  TextureInfo.y a < TextureInfo.y b + TextureInfo.height b /\
  TextureInfo.y b < TextureInfo.y a + TextureInfo.height a.


(** The placement stays within the page. *)
Definition withinPage (cfg : Config) (ti : TextureInfo.t) : Prop :=
  TextureInfo.x ti + TextureInfo.width ti <= width_ cfg /\
  TextureInfo.y ti + TextureInfo.height ti <= height_ cfg /\
  TextureInfo.z ti < depth_ cfg.

(** No two records of a list overlap. *)
Fixpoint noOverlap (l : list TextureInfo.t) : Prop :=
  match l with
  | [] => True
  | a :: l => Forall (fun b => ~ overlap a b) l /\ noOverlap l
  end.






(** A slot of the atlas: an offset with the size placed there. *)
Definition Rect : Type := Offset.t * Z * Z.

(** The slot a record occupies. *)
Definition rectOf (ti : TextureInfo.t) : Rect :=
  (offsetOf ti, TextureInfo.width ti, TextureInfo.height ti).

(** [overlap], for slots. *)
Definition overlapR (a b : Rect) : Prop :=
  Offset.i a.1.1 = Offset.i b.1.1 /\
  Offset.z a.1.1 = Offset.z b.1.1 /\
  Offset.x a.1.1 < Offset.x b.1.1 + b.1.2 /\
  Offset.x b.1.1 < Offset.x a.1.1 + a.1.2 /\
  Offset.y a.1.1 < Offset.y b.1.1 + b.2 /\
  Offset.y b.1.1 < Offset.y a.1.1 + a.2.

(** A slot lies behind the packing cursor: in an earlier instance, in an
    earlier layer of the current instance, above the current row of the
    current layer, or in the current row, left of the cursor and no taller
    than the tracked row height. *)
Definition behindR (s : State) (r : Rect) : Prop :=
  Offset.i r.1.1 < currentInstanceId_ s \/
  Offset.i r.1.1 = currentInstanceId_ s /\
  (Offset.z r.1.1 < currentZ_ s \/
   Offset.z r.1.1 = currentZ_ s /\
   (Offset.y r.1.1 + r.2 <= currentY_ s \/
    Offset.y r.1.1 = currentY_ s /\
    Offset.x r.1.1 + r.1.2 <= currentX_ s /\
    r.2 <= maxTextureHeightInCurrentRow_ s)).

(** No two slots of a list overlap. *)
Fixpoint apart (l : list Rect) : Prop :=
  match l with
  | [] => True
  | a :: l => Forall (fun b => ~ overlapR a b) l /\ apart l
  end.

(** The discarded regions, each with the size it is filed under. *)
Definition freeRects (m : gmap (Z * Z) (list Offset.t)) : list Rect :=
  map_to_list m ≫= fun kl => (fun o => (o, kl.1.1, kl.1.2)) <$> kl.2.

(** Every slot the allocator knows: the live records, then the discarded
    regions. *)
Definition allSlots (s : State) : list Rect :=
  ((fun n : Ptr * TextureInfo.t => rectOf (snd n)) <$> textureInfos_ s)
  ++ freeRects (discarded_ s).

(** The instance ids the backend was asked to create, oldest first. *)
Fixpoint createdIds (log : list Command) : list Z :=
  match log with
  | [] => []
  | CreateAtlas id :: log => id :: createdIds log
  | _ :: log => createdIds log
  end.

Fixpoint destroyedIds (log : list Command) : list Z :=
  match log with
  | [] => []
  | DestroyAtlas id :: log => id :: destroyedIds log
  | _ :: log => destroyedIds log
  end.

(** The slot the free-map offers for an exact size: the back of the vector
    stored under that size, if there is one. *)
Definition freeSlot (s : State) (w h : Z) : option Offset.t :=
  discarded_ s !! (w, h) ≫= last.

(** Node addresses in use lie below the next address to hand out. *)
Definition ptrsFresh (s : State) : Prop :=
  Forall (fun n : Ptr * TextureInfo.t => (fst n < nextPtr_ s)%nat) (textureInfos_ s).

(** A property of offsets and sizes holds of every slot the allocator
    knows: the live records and the discarded regions. *)
Definition slotsSatisfy (Q : Offset.t -> Z -> Z -> Prop) (s : State) : Prop :=
  Forall (fun n : Ptr * TextureInfo.t =>
            Q (offsetOf (snd n)) (TextureInfo.width (snd n))
              (TextureInfo.height (snd n))) (textureInfos_ s) /\
  forall w h l, discarded_ s !! (w, h) = Some l -> Forall (fun o => Q o w h) l.

(** Every size the allocator knows fits a page. *)
Definition sizesFit (cfg : Config) (s : State) : Prop :=
  Forall (fun n : Ptr * TextureInfo.t =>
            TextureInfo.width (snd n) <= width_ cfg /\
            TextureInfo.height (snd n) <= height_ cfg) (textureInfos_ s) /\
  forall w h l, discarded_ s !! (w, h) = Some l -> l <> [] ->
                w <= width_ cfg /\ h <= height_ cfg.

(** ** Configurations and runs of the examples *)

(** One instance of one layer of 4 by 4 pixels. *)
Definition page4 : Config := mkConfig 0 1 1 4 4 0%N "glyphs".

(** One instance of one layer of 10 by 10 pixels. *)
Definition page10 : Config := mkConfig 0 1 1 10 10 0%N "glyphs".

(** Two instances of one layer of 4 by 4 pixels. *)
Definition pages4 : Config := mkConfig 0 2 1 4 4 0%N "glyphs".

(** Three images on a 10 by 10 page: 5x1, 5x1 and 1x10. *)
Definition threeImages : list Op :=
  [OpInsert 5 1 5 1 0%N [] 0; OpInsert 5 1 5 1 0%N [] 1; OpInsert 1 10 1 10 0%N [] 2].

(** Three rows on a 10 by 10 page: a tall image, then two flat ones. *)
Definition tallThenFlat : list Op :=
  [OpInsert 9 3 9 3 0%N [] 0; OpInsert 9 1 9 1 0%N [] 1].

(** An image inserted and released before the three images. *)
Definition insertedAndReleased : list Op :=
  [OpInsert 5 1 5 1 0%N [] 9; OpRelease 0%nat].

(** A page on which [threeImagesFor] behaves as [threeImages] on [page10]. *)
Definition pageFor (hg vg : Z) : Config :=
  mkConfig 0 1 1 (10 + 2 * hg) (10 + vg) 0%N "glyphs".

(** The three images, the last one as tall as the page of [pageFor]. *)
Definition threeImagesFor (vg : Z) : list Op :=
  [OpInsert 5 1 5 1 0%N [] 0; OpInsert 5 1 5 1 0%N [] 1;
   OpInsert 1 (10 + vg) 1 (10 + vg) 0%N [] 2].

(** ** Further observations of the backend log and of the cursor *)

(** The records the backend was asked to upload, oldest first. *)
Fixpoint uploadedInfos (log : list Command) : list TextureInfo.t :=
  match log with
  | [] => []
  | UploadTexture _ info _ _ :: log => info :: uploadedInfos log
  | _ :: log => uploadedInfos log
  end.

(** Every upload of the log goes to an atlas that is among [created] or was
    created earlier in the log. *)
Fixpoint uploadsFollowCreation (created : list Z) (log : list Command) : Prop :=
  match log with
  | [] => True
  | CreateAtlas id :: log => uploadsFollowCreation (id :: created) log
  | DestroyAtlas _ :: log => uploadsFollowCreation created log
  | UploadTexture _ info _ _ :: log =>
      TextureInfo.atlas info ∈ created /\ uploadsFollowCreation created log
  end.

(** The cursor of [s'] is not before the cursor of [s]: instance, layer and
    row origin compared in this order. *)
Definition cursorNotBefore (s s' : State) : Prop :=
  currentInstanceId_ s < currentInstanceId_ s' \/
  currentInstanceId_ s = currentInstanceId_ s' /\
  (currentZ_ s < currentZ_ s' \/
   currentZ_ s = currentZ_ s' /\ currentY_ s <= currentY_ s').

(** The addresses of the live records are pairwise different. *)
Definition ptrsDistinct (s : State) : Prop := NoDup (fst <$> textureInfos_ s).

(** No size of the free-map is filed with an empty vector. *)
Definition noEmptyVector (s : State) : Prop :=
  forall k l, discarded_ s !! k = Some l -> l <> [].


(** Two 3 by 3 images; on [page4] the second one exhausts the allocator. *)
Definition twoSquares : list Op :=
  [OpInsert 3 3 3 3 0%N [] 0; OpInsert 3 3 3 3 0%N [] 1].

(** The records of the first two images of [threeImages] on [page10]. *)
Definition firstOfThree : TextureInfo.t :=
  TextureInfo.mk 0 "glyphs" 0 0 0 5 1 5 1 (0, 10) (0, 10) (5, 10) (1, 10) 0.

Definition secondOfThree : TextureInfo.t :=
  TextureInfo.mk 0 "glyphs" 0 1 0 5 1 5 1 (0, 10) (1, 10) (5, 10) (1, 10) 1.

(** The record of the first image of [twoSquares] on [page4]. *)
Definition firstSquare : TextureInfo.t :=
  TextureInfo.mk 0 "glyphs" 0 0 0 3 3 3 3 (0, 4) (0, 4) (3, 4) (3, 4) 0.


(** The three images of [threeImages], then the release of the first. *)
Definition threeImagesOneReleased : list Op := threeImages ++ [OpRelease 0%nat].




(** ** Tactics *)

(** Case analysis on the integer comparisons of the goal. *)
Ltac zcases :=
  repeat match goal with
         | |- context [?a <? ?b] => destruct (Z.ltb_spec a b)
         | |- context [?a >? ?b] => rewrite (Z.gtb_ltb a b)
         end; simpl.

Ltac unfold_advance :=
  unfold TextureAtlasAllocator.getOffsetAndAdvance, TextureAtlasAllocator.place,
    TextureAtlasAllocator.notifyCreateAtlas, TextureAtlasAllocator.offset; simpl.

Section Properties.

Variables HorizontalGap VerticalGap : Z.
Variable cfg : Config.

Local Abbreviation construct := (TextureAtlasAllocator.construct cfg).
Local Abbreviation clear := (TextureAtlasAllocator.clear cfg).
Local Abbreviation release := TextureAtlasAllocator.release.
Local Abbreviation findNode := TextureAtlasAllocator.findNode.
Local Abbreviation getOffsetAndAdvance :=
  (TextureAtlasAllocator.getOffsetAndAdvance HorizontalGap VerticalGap cfg).
Local Abbreviation appendTextureInfo := (TextureAtlasAllocator.appendTextureInfo cfg).
Local Abbreviation insertFresh :=
  (TextureAtlasAllocator.insertFresh HorizontalGap VerticalGap cfg).
Local Abbreviation insert :=
  (TextureAtlasAllocator.insert HorizontalGap VerticalGap cfg).
Local Abbreviation exec := (exec HorizontalGap VerticalGap cfg).
Local Abbreviation run := (run HorizontalGap VerticalGap cfg).
Local Abbreviation placements := (placements HorizontalGap VerticalGap cfg).
Local Abbreviation reachable := (reachable HorizontalGap VerticalGap cfg).

(** *** Predicates on states *)

(** The size check of [insert]: the image cannot fit a page. *)
Definition oversized (w h : Z) : Prop := h > height_ cfg \/ w > width_ cfg.

(** The instance identifiers of the configuration. *)
Definition instanceInRange (v : Z) : Prop :=
  instanceBaseId_ cfg <= v < instanceBaseId_ cfg + maxInstances_ cfg.

(** The current instance, the live records and the discarded offsets all
    name an instance of the configured range. *)
Definition instancesInRange (s : State) : Prop :=
  instanceInRange (currentInstanceId_ s) /\
  slotsSatisfy (fun o _ _ => instanceInRange (Offset.i o)) s.

(** Cursor invariants that hold whatever the configuration. *)
Definition cursorSane (s : State) : Prop :=
  instanceBaseId_ cfg <= currentInstanceId_ s /\
  0 <= maxTextureHeightInCurrentRow_ s /\
  (0 <= depth_ cfg -> 0 <= currentZ_ s <= depth_ cfg).

(** The state of an exhausted allocator: cursor at the sentinel position,
    no row height, no instance left. *)
Definition exhausted (s : State) : Prop :=
  cursorFull cfg s /\
  maxTextureHeightInCurrentRow_ s = 0 /\
  ~ currentInstanceId_ s + 1 < instanceBaseId_ cfg + maxInstances_ cfg.



(** The cursor of a live allocator: exhausted, or inside the page volume. *)
Definition cursorInPage (s : State) : Prop :=
  0 <= maxTextureHeightInCurrentRow_ s /\
  (exhausted s \/
   0 <= currentX_ s /\ 0 <= currentY_ s /\ 0 <= currentZ_ s < depth_ cfg).

(** What holds of the offset of every slot: it starts inside the page, ends
    before the right edge and lies in a layer of the atlas. *)
Definition slotInPage (o : Offset.t) (w h : Z) : Prop :=
  0 <= Offset.x o /\ Offset.x o + w <= width_ cfg /\
  0 <= Offset.y o /\ 0 <= Offset.z o < depth_ cfg.

(** The slots filed under one size. *)
Definition rectsOf (k : Z * Z) (l : list Offset.t) : list Rect :=
  (fun o => (o, k.1, k.2)) <$> l.

(** The slots of a live allocator are pairwise apart and, unless the
    allocator is exhausted, behind the cursor. *)
Definition slotsApart (s : State) : Prop :=
  apart (allSlots s) /\ (exhausted s \/ Forall (behindR s) (allSlots s)).

(** The values of type [int] that [getOffsetAndAdvance] computes on the way
    it takes, in the order of the source. *)
Definition advanceValues (w h : Z) (s : State) : list Z :=
  let placed x := [w + HorizontalGap; x + (w + HorizontalGap)] in
  [currentX_ s + HorizontalGap; currentX_ s + HorizontalGap + w] ++
  if negb (currentX_ s + HorizontalGap + w <? width_ cfg) then
    let y1 := currentY_ s + (maxTextureHeightInCurrentRow_ s + VerticalGap) in
    [maxTextureHeightInCurrentRow_ s + VerticalGap; y1; y1 + h] ++
    if negb (y1 + h <? height_ cfg) then
      [currentZ_ s + 1] ++
      if negb (currentZ_ s + 1 <? depth_ cfg) then
        [currentInstanceId_ s + 1; instanceBaseId_ cfg + maxInstances_ cfg] ++
        if negb (currentInstanceId_ s + 1 <? instanceBaseId_ cfg + maxInstances_ cfg)
        then []
        else placed 0
      else placed 0
    else placed 0
  else placed (currentX_ s).

(** The values of a 32-bit [int]. *)
Definition intRange (v : Z) : Prop := - 2 ^ 31 <= v < 2 ^ 31.

(** A configuration whose geometry stays well below the limits of [int]. *)
Definition smallConfig : Prop :=
  0 <= HorizontalGap <= 2 ^ 28 /\ 0 <= VerticalGap <= 2 ^ 28 /\
  0 <= width_ cfg <= 2 ^ 28 /\ 0 <= height_ cfg <= 2 ^ 28 /\
  0 <= depth_ cfg <= 2 ^ 28 /\
  - 2 ^ 28 <= instanceBaseId_ cfg <= 2 ^ 28 /\ 1 <= maxInstances_ cfg <= 2 ^ 28.

(** Bounds of the cursor members. *)
Definition cursorBounded (s : State) : Prop :=
  0 <= currentX_ s <= width_ cfg + HorizontalGap /\
  0 <= currentY_ s <= height_ cfg /\
  0 <= maxTextureHeightInCurrentRow_ s <= height_ cfg /\
  0 <= currentZ_ s <= depth_ cfg /\
  instanceBaseId_ cfg <= currentInstanceId_ s
    < instanceBaseId_ cfg + maxInstances_ cfg.


(** *** Runs *)

Lemma run_app ops1 ops2 s : run (ops1 ++ ops2) s = run ops2 (run ops1 s).
Proof. revert s; induction ops1 as [|op ops1 IH]; intros s; simpl; auto. Qed.

Lemma reachable_construct : reachable construct.
Proof. exists []; reflexivity. Qed.

Lemma reachable_exec op s : reachable s -> reachable (snd (exec op s)).
Proof.
  intros [ops ->]. exists (ops ++ [op]). rewrite run_app. reflexivity.
Qed.

Lemma reachable_run ops s : reachable s -> reachable (run ops s).
Proof.
  revert s; induction ops as [|op ops IH]; intros s Hs; simpl; auto.
  apply IH, reachable_exec, Hs.
Qed.

(** Induction over the calls that led to a state. *)
Lemma reachable_inv (P : State -> Prop) :
  P construct ->
  (forall op s, reachable s -> P s -> P (snd (exec op s))) ->
  forall s, reachable s -> P s.
Proof.
  intros H0 Hstep s [ops ->].
  induction ops as [|op ops IH] using rev_ind; [exact H0|].
  rewrite run_app. simpl. apply Hstep; [eexists; reflexivity | exact IH].
Qed.

(** *** The free-map lookup of [insert] *)

Lemma insert_miss w h tw th f d u s :
  freeSlot s w h = None ->
  insert w h tw th f d u s = insertFresh w h tw th f d u s.
Proof.
  unfold freeSlot, TextureAtlasAllocator.insert.
  destruct (discarded_ s !! (w, h)) as [l|]; simpl; [|reflexivity].
  intros ->. reflexivity.
Qed.

Lemma insert_hit w h tw th f d u s back :
  freeSlot s w h = Some back ->
  exists node s',
    insert w h tw th f d u s = (Some node, s') /\
    offsetOf (snd node) = back /\
    TextureInfo.width (snd node) = w /\ TextureInfo.height (snd node) = h /\
    fst node = nextPtr_ s /\
    cursor s' = cursor s /\
    textureInfos_ s' = textureInfos_ s ++ [node] /\
    nextPtr_ s' = S (nextPtr_ s) /\
    atlasBackend_ s' =
      atlasBackend_ s ++ [UploadTexture (fst node) (snd node) d f] /\
    exists l, discarded_ s !! (w, h) = Some (l ++ [back]) /\
      discarded_ s' =
        match l with
        | [] => delete (w, h) (discarded_ s)
        | _ => <[(w, h) := l]> (discarded_ s)
        end.
Proof.
  unfold freeSlot, TextureAtlasAllocator.insert.
  destruct (discarded_ s !! (w, h)) as [l|] eqn:Hl; simpl; [|discriminate].
  intros Hlast. rewrite Hlast.
  apply last_Some in Hlast as [l' ->].
  rewrite removelast_last.
  eexists _, _. split; [reflexivity|].
  destruct back; simpl.
  repeat split; try (destruct l'; reflexivity).
  exists l'. split; [reflexivity|]. destruct l'; reflexivity.
Qed.

(** *** What [getOffsetAndAdvance] leaves alone *)

Lemma advance_frame w h s r s' :
  getOffsetAndAdvance w h s = (r, s') ->
  discarded_ s' = discarded_ s /\
  textureInfos_ s' = textureInfos_ s /\
  nextPtr_ s' = nextPtr_ s /\
  (atlasBackend_ s' = atlasBackend_ s /\
   currentInstanceId_ s' = currentInstanceId_ s
   \/
   atlasBackend_ s' = atlasBackend_ s ++ [CreateAtlas (currentInstanceId_ s + 1)] /\
   currentInstanceId_ s' = currentInstanceId_ s + 1 /\
   currentInstanceId_ s + 1 < instanceBaseId_ cfg + maxInstances_ cfg /\
   is_Some r).
Proof.
  unfold_advance. zcases; intros [= <- <-]; simpl; auto 10.
Qed.

(** A failed advance leaves the cursor at the sentinel position. *)
Lemma advance_none w h s s' :
  getOffsetAndAdvance w h s = (None, s') ->
  cursor s' = (currentInstanceId_ s, depth_ cfg, width_ cfg, height_ cfg, 0) /\
  atlasBackend_ s' = atlasBackend_ s /\
  ~ currentX_ s + HorizontalGap + w < width_ cfg /\
  ~ currentY_ s + maxTextureHeightInCurrentRow_ s + VerticalGap + h < height_ cfg /\
  ~ currentZ_ s + 1 < depth_ cfg /\
  ~ currentInstanceId_ s + 1 < instanceBaseId_ cfg + maxInstances_ cfg.
Proof.
  unfold_advance. zcases; intros [= <-]; simpl; unfold cursor; simpl.
  repeat split; auto; lia.
Qed.

(** *** The two outcomes of [insert] *)

Lemma oversized_test w h :
  ((h >? height_ cfg) || (w >? width_ cfg) = true <-> oversized w h).
Proof.
  unfold oversized. rewrite orb_true_iff, !Z.gtb_ltb, !Z.ltb_lt. lia.
Qed.

Lemma insert_none w h tw th f d u s s' :
  insert w h tw th f d u s = (None, s') ->
  freeSlot s w h = None /\
  (oversized w h /\ s' = s \/
   ~ oversized w h /\ getOffsetAndAdvance w h s = (None, s')).
Proof.
  destruct (freeSlot s w h) as [back|] eqn:Hslot.
  - destruct (insert_hit w h tw th f d u s back Hslot) as (n & s1 & -> & _).
    discriminate.
  - rewrite (insert_miss _ _ _ _ _ _ _ _ Hslot).
    unfold TextureAtlasAllocator.insertFresh.
    destruct (_ || _) eqn:Hbig.
    + intros [= <-]. apply oversized_test in Hbig. auto.
    + assert (~ oversized w h) by (rewrite <- oversized_test; congruence).
      destruct (getOffsetAndAdvance w h s) as [[o|] s1]; simpl.
      * discriminate.
      * intros [= <-]. auto.
Qed.

Lemma insert_some w h tw th f d u s node s' :
  insert w h tw th f d u s = (Some node, s') ->
  fst node = nextPtr_ s /\
  TextureInfo.width (snd node) = w /\ TextureInfo.height (snd node) = h /\
  textureInfos_ s' = textureInfos_ s ++ [node] /\
  nextPtr_ s' = S (nextPtr_ s) /\
  (freeSlot s w h = Some (offsetOf (snd node)) /\
   cursor s' = cursor s /\
   atlasBackend_ s' = atlasBackend_ s ++ [UploadTexture (fst node) (snd node) d f]
   \/
   exists s1,
     freeSlot s w h = None /\ ~ oversized w h /\
     getOffsetAndAdvance w h s = (Some (offsetOf (snd node)), s1) /\
     cursor s' = cursor s1 /\
     discarded_ s' = discarded_ s /\
     atlasBackend_ s' =
       atlasBackend_ s1 ++ [UploadTexture (fst node) (snd node) d f]).
Proof.
  destruct (freeSlot s w h) as [back|] eqn:Hslot.
  - destruct (insert_hit w h tw th f d u s back Hslot)
      as (n & s1 & -> & Hoff & Hw & Hh & Hp & Hc & Hti & Hnp & Hlog & _).
    intros [= <- <-]. rewrite Hoff. auto 10.
  - rewrite (insert_miss _ _ _ _ _ _ _ _ Hslot).
    unfold TextureAtlasAllocator.insertFresh.
    destruct (_ || _) eqn:Hbig; [discriminate|].
    assert (~ oversized w h) by (rewrite <- oversized_test; congruence).
    destruct (getOffsetAndAdvance w h s) as [[o|] s1] eqn:Hadv; simpl;
      [|discriminate].
    intros [= <- <-]. simpl.
    destruct (advance_frame _ _ _ _ _ Hadv) as (Hd & Hti & Hnp & _).
    rewrite Hti, Hnp. repeat split; auto.
    right. exists s1. destruct o; simpl. auto 10.
Qed.

(** *** [release] *)

Lemma release_dead p s : findNode p s = None -> release p s = s.
Proof. unfold TextureAtlasAllocator.release. intros ->. reflexivity. Qed.

Lemma release_live p s ti :
  findNode p s = Some ti ->
  cursor (release p s) = cursor s /\
  atlasBackend_ (release p s) = atlasBackend_ s /\
  nextPtr_ (release p s) = nextPtr_ s /\
  textureInfos_ (release p s) =
    TextureAtlasAllocator.eraseNode p (textureInfos_ s) /\
  discarded_ (release p s) =
    <[(TextureInfo.width ti, TextureInfo.height ti) :=
        default [] (discarded_ s !! (TextureInfo.width ti, TextureInfo.height ti))
        ++ [offsetOf ti]]> (discarded_ s).
Proof.
  unfold TextureAtlasAllocator.release. intros ->. simpl. auto.
Qed.

Lemma release_frame p s :
  cursor (release p s) = cursor s /\
  atlasBackend_ (release p s) = atlasBackend_ s /\
  nextPtr_ (release p s) = nextPtr_ s.
Proof.
  destruct (findNode p s) as [ti|] eqn:Hf.
  - destruct (release_live p s ti Hf) as (? & ? & ? & _). auto.
  - rewrite (release_dead p s Hf). auto.
Qed.

Lemma findNode_elem p s ti : findNode p s = Some ti -> (p, ti) ∈ textureInfos_ s.
Proof.
  unfold TextureAtlasAllocator.findNode.
  destruct (find _ _) as [[q t]|] eqn:Hfind; simpl; [|discriminate].
  intros [= <-]. apply find_some in Hfind as [Hin Heq]. simpl in Heq.
  apply Nat.eqb_eq in Heq as ->. apply list_elem_of_In, Hin.
Qed.

Lemma eraseNode_subseteq p (l : list (Ptr * TextureInfo.t)) :
  TextureAtlasAllocator.eraseNode p l ⊆ l.
Proof.
  induction l as [|n l IH]; simpl; [done|].
  intros m Hm. rewrite elem_of_cons.
  destruct (fst n =? p)%nat; [by right|].
  apply elem_of_cons in Hm as [->|Hm]; [by left | right; by apply IH].
Qed.

Lemma release_infos_subseteq p s : textureInfos_ (release p s) ⊆ textureInfos_ s.
Proof.
  destruct (findNode p s) as [ti|] eqn:Hf.
  - destruct (release_live p s ti Hf) as (_ & _ & _ & -> & _).
    apply eraseNode_subseteq.
  - rewrite (release_dead p s Hf). done.
Qed.

(** The cursor after one call: untouched, or moved by the packing advance,
    or reset by [clear]. *)
Lemma exec_cursor op s :
  cursor (snd (exec op s)) = cursor s \/
  (exists w h tw th f d u,
      op = OpInsert w h tw th f d u /\
      freeSlot s w h = None /\ ~ oversized w h /\
      cursor (snd (exec op s)) = cursor (snd (getOffsetAndAdvance w h s))) \/
  op = OpClear.
Proof.
  destruct op as [w h tw th f d u|p|]; simpl.
  - destruct (insert w h tw th f d u s) as [[node|] s'] eqn:Hins; simpl.
    + destruct (insert_some _ _ _ _ _ _ _ _ _ _ Hins)
        as (_ & _ & _ & _ & _ & [(_ & Hc & _)|(s1 & Hs & Hfit & Hadv & Hc & _)]);
        [by left|].
      right; left. exists w, h, tw, th, f, d, u. rewrite Hadv. simpl. auto.
    + destruct (insert_none _ _ _ _ _ _ _ _ _ Hins) as (Hs & [[_ ->]|[Hfit Hadv]]);
        [by left|].
      right; left. exists w, h, tw, th, f, d, u. rewrite Hadv. simpl. auto.
  - left. apply release_frame.
  - by right; right.
Qed.

(** *** Invariants of every reachable state *)

Lemma ptrsFresh_reachable s : reachable s -> ptrsFresh s.
Proof.
  apply reachable_inv; clear s.
  - constructor.
  - intros [w h tw th f d u|p|] s _ IH; simpl.
    + destruct (insert w h tw th f d u s) as [[node|] s'] eqn:Hins; simpl.
      * destruct (insert_some _ _ _ _ _ _ _ _ _ _ Hins)
          as (Hp & _ & _ & Hti & Hnp & _).
        unfold ptrsFresh. rewrite Hti, Hnp. apply Forall_app. split.
        -- eapply Forall_impl; [exact IH|]. simpl; lia.
        -- constructor; [|constructor]. lia.
      * destruct (insert_none _ _ _ _ _ _ _ _ _ Hins) as (_ & [[_ ->]|[_ Hadv]]);
          [exact IH|].
        destruct (advance_frame _ _ _ _ _ Hadv) as (_ & Hti & Hnp & _).
        unfold ptrsFresh. rewrite Hti, Hnp. exact IH.
    + unfold ptrsFresh.
      destruct (release_frame p s) as (_ & _ & ->).
      apply Forall_forall. intros n Hn.
      apply release_infos_subseteq in Hn.
      revert n Hn. apply Forall_forall, IH.
    + exact IH.
Qed.

(** A property of slots that holds of every placement of the packing
    advance is kept by every call: the free-map only hands out what was
    placed before, under the size it was placed with. *)
Lemma slotsSatisfy_exec (Q : Offset.t -> Z -> Z -> Prop) op s :
  match op with
  | OpInsert w h _ _ _ _ _ =>
      forall o s1, freeSlot s w h = None -> ~ oversized w h ->
                   getOffsetAndAdvance w h s = (Some o, s1) -> Q o w h
  | _ => True
  end ->
  slotsSatisfy Q s -> slotsSatisfy Q (snd (exec op s)).
Proof.
  intros Hnew Hinv. pose proof Hinv as (IHl & IHd).
  destruct op as [w h tw th f d u|p|]; simpl.
  - destruct (insert w h tw th f d u s) as [[node|] s'] eqn:Hins; simpl.
    + destruct (freeSlot s w h) as [back|] eqn:Hslot.
      * destruct (insert_hit w h tw th f d u s back Hslot)
          as (n & s1 & Heq & Hoff & Hw & Hh & _ & _ & Hti & _ & _ & l & Hl & Hd).
        rewrite Hins in Heq. injection Heq as <- <-.
        pose proof (IHd w h _ Hl) as Hall.
        apply Forall_app in Hall as [Hall Hback].
        apply Forall_inv in Hback.
        split.
        -- rewrite Hti. apply Forall_app. split; [exact IHl|].
           constructor; [|constructor]. by rewrite Hoff, Hw, Hh.
        -- rewrite Hd. intros w' h' l' Hl'.
           destruct (decide ((w, h) = (w', h'))) as [[= <- <-]|Hkey].
           ++ destruct l.
              ** by rewrite lookup_delete_eq in Hl'.
              ** rewrite lookup_insert_eq in Hl'. by injection Hl' as <-.
           ++ destruct l.
              ** rewrite lookup_delete_ne in Hl' by done. eauto.
              ** rewrite lookup_insert_ne in Hl' by done. eauto.
      * destruct (insert_some _ _ _ _ _ _ _ _ _ _ Hins)
          as (_ & Hw & Hh & Hti & _ & [(Hs & _)|(s1 & _ & Hfit & Hadv & _ & Hd & _)]).
        { congruence. }
        split.
        -- rewrite Hti. apply Forall_app. split; [exact IHl|].
           constructor; [|constructor]. rewrite Hw, Hh. by eapply Hnew.
        -- by rewrite Hd.
    + destruct (insert_none _ _ _ _ _ _ _ _ _ Hins) as (_ & [[_ ->]|[_ Hadv]]);
        [exact Hinv|].
      destruct (advance_frame _ _ _ _ _ Hadv) as (Hd & Hti & _).
      split; [by rewrite Hti | by rewrite Hd].
  - destruct (findNode p s) as [ti|] eqn:Hf;
      [|rewrite (release_dead p s Hf); exact Hinv].
    destruct (release_live p s ti Hf) as (_ & _ & _ & Hti & Hd).
    assert (Q (offsetOf ti) (TextureInfo.width ti) (TextureInfo.height ti)) as Hin.
    { apply findNode_elem in Hf. rewrite Forall_forall in IHl. apply (IHl _ Hf). }
    split.
    + rewrite Hti. apply Forall_forall. intros n Hn.
      apply eraseNode_subseteq in Hn. revert n Hn. by apply Forall_forall.
    + rewrite Hd. intros w' h' l' Hl'.
      destruct (decide ((TextureInfo.width ti, TextureInfo.height ti) = (w', h')))
        as [[= <- <-]|Hkey].
      * rewrite lookup_insert_eq in Hl'. injection Hl' as <-.
        apply Forall_app. split; [|constructor; [exact Hin | constructor]].
        destruct (discarded_ s !! _) as [l|] eqn:Hl; simpl; [eauto | constructor].
      * rewrite lookup_insert_ne in Hl' by done. eauto.
  - split; [exact IHl|]. simpl. intros w h l Hl. by rewrite lookup_empty in Hl.
Qed.

Lemma slotsSatisfy_construct (Q : Offset.t -> Z -> Z -> Prop) :
  slotsSatisfy Q construct.
Proof.
  split; [constructor|]. simpl. intros w h l Hl. by rewrite lookup_empty in Hl.
Qed.

Lemma sizesFit_reachable s : reachable s -> sizesFit cfg s.
Proof.
  intros Hreach.
  assert (slotsSatisfy (fun _ w h => w <= width_ cfg /\ h <= height_ cfg) s)
    as [Hl Hd].
  { revert s Hreach. apply reachable_inv; [apply slotsSatisfy_construct|].
    intros op s _ IH. apply slotsSatisfy_exec; [|exact IH].
    destruct op; [|exact I..].
    intros o s1 _ Hfit _. unfold oversized in Hfit. lia. }
  split; [exact Hl|].
  intros w h l Hlook Hne. specialize (Hd w h l Hlook).
  destruct l as [|o l]; [done|]. by apply Forall_inv in Hd.
Qed.

(** The record handed out by a successful [insert] is found again under
    its address. *)
Lemma findNode_fresh (l : list (Ptr * TextureInfo.t)) p ti :
  Forall (fun n : Ptr * TextureInfo.t => (fst n < p)%nat) l ->
  snd <$> find (fun n : Ptr * TextureInfo.t => (fst n =? p)%nat) (l ++ [(p, ti)])
  = Some ti.
Proof.
  induction 1 as [|n l Hn _ IH]; simpl.
  - by rewrite Nat.eqb_refl.
  - destruct (Nat.eqb_spec (fst n) p); [lia | exact IH].
Qed.

Lemma insert_findNode w h tw th f d u s node s' :
  ptrsFresh s ->
  insert w h tw th f d u s = (Some node, s') ->
  findNode (fst node) s' = Some (snd node).
Proof.
  intros Hfresh Hins.
  destruct (insert_some _ _ _ _ _ _ _ _ _ _ Hins) as (Hp & _ & _ & Hti & _).
  unfold TextureAtlasAllocator.findNode. rewrite Hti.
  destruct node as [p ti]; simpl in *; subst p.
  by apply findNode_fresh.
Qed.

(** Releasing a live record puts its offset at the back of the vector of
    its size, which is the slot [insert] serves next. *)
Lemma freeSlot_release p s ti :
  findNode p s = Some ti ->
  freeSlot (release p s) (TextureInfo.width ti) (TextureInfo.height ti)
  = Some (offsetOf ti).
Proof.
  intros Hf. unfold freeSlot.
  destruct (release_live p s ti Hf) as (_ & _ & _ & _ & ->).
  rewrite lookup_insert_eq. simpl. apply last_snoc.
Qed.

(** ** Exact-fit reuse *)

(** C4. From a reachable state, a successful insert of size (w, h), the
    release of the record it returned and a second insert of size (w, h):
    the second insert succeeds at the identical (instance, x, y, layer)
    offset, which is the slot freed last, and leaves the packing cursor
    where the release left it. *)
Theorem insert_release_insert_reuses_offset
        w h tw th f d u tw' th' f' d' u' s node s1 :
  reachable s ->
  insert w h tw th f d u s = (Some node, s1) ->
  exists node' s3,
    insert w h tw' th' f' d' u' (release (fst node) s1) = (Some node', s3) /\
    offsetOf (snd node') = offsetOf (snd node) /\
    freeSlot (release (fst node) s1) w h = Some (offsetOf (snd node)) /\
    cursor s3 = cursor (release (fst node) s1) /\
    cursor s3 = cursor s1.
Proof.
  intros Hreach Hins.
  pose proof (insert_findNode _ _ _ _ _ _ _ _ _ _
                (ptrsFresh_reachable s Hreach) Hins) as Hfind.
  destruct (insert_some _ _ _ _ _ _ _ _ _ _ Hins) as (_ & Hw & Hh & _).
  pose proof (freeSlot_release _ _ _ Hfind) as Hslot.
  rewrite Hw, Hh in Hslot.
  destruct (insert_hit w h tw' th' f' d' u' _ _ Hslot)
    as (node' & s3 & Hins' & Hoff & _ & _ & _ & Hcur & _).
  exists node', s3. repeat split; auto.
  rewrite Hcur. apply release_frame.
Qed.

Lemma find_eraseNode_other p q (l : list (Ptr * TextureInfo.t)) :
  p <> q ->
  find (fun n : Ptr * TextureInfo.t => (fst n =? q)%nat)
       (TextureAtlasAllocator.eraseNode p l)
  = find (fun n : Ptr * TextureInfo.t => (fst n =? q)%nat) l.
Proof.
  intros Hpq. induction l as [|n l IH]; simpl; [reflexivity|].
  destruct (Nat.eqb_spec (fst n) p) as [Hnp|Hnp].
  - destruct (Nat.eqb_spec (fst n) q); [congruence | reflexivity].
  - simpl. destruct (fst n =? q)%nat; [reflexivity | exact IH].
Qed.

Lemma findNode_release_other p q s tq :
  p <> q -> findNode q s = Some tq -> findNode q (release p s) = Some tq.
Proof.
  intros Hpq Hq.
  destruct (findNode p s) as [tp|] eqn:Hp;
    [|by rewrite (release_dead p s Hp)].
  destruct (release_live p s tp Hp) as (_ & _ & _ & Hti & _).
  unfold TextureAtlasAllocator.findNode in *.
  by rewrite Hti, find_eraseNode_other.
Qed.

(** X2. The free-list is a stack: of two live records of one size released one
    after the other, the next insert of that size gets the offset of the
    second and the insert after it the offset of the first. *)
Lemma reuse_is_last_freed_first p q s tp tq tw th f d u tw' th' f' d' u' :
  p <> q ->
  findNode p s = Some tp -> findNode q s = Some tq ->
  TextureInfo.width tq = TextureInfo.width tp ->
  TextureInfo.height tq = TextureInfo.height tp ->
  exists n1 s1 n2 s2,
    insert (TextureInfo.width tp) (TextureInfo.height tp) tw th f d u
           (release q (release p s)) = (Some n1, s1) /\
    offsetOf (snd n1) = offsetOf tq /\
    insert (TextureInfo.width tp) (TextureInfo.height tp) tw' th' f' d' u' s1
      = (Some n2, s2) /\
    offsetOf (snd n2) = offsetOf tp.
Proof.
  intros Hpq Hp Hq Hw Hh.
  pose proof (findNode_release_other p q s tq Hpq Hq) as Hq'.
  destruct (release_live p s tp Hp) as (_ & _ & _ & _ & Hd1).
  destruct (release_live q _ tq Hq') as (_ & _ & _ & _ & Hd2).
  rewrite Hw, Hh, Hd1, lookup_insert_eq in Hd2. simpl in Hd2.
  set (k := (TextureInfo.width tp, TextureInfo.height tp)) in *.
  set (l0 := default [] (discarded_ s !! k)) in *.
  assert (freeSlot (release q (release p s)) k.1 k.2 = Some (offsetOf tq)) as Hslot.
  { unfold freeSlot. simpl. fold k. rewrite Hd2, lookup_insert_eq. simpl.
    apply last_snoc. }
  destruct (insert_hit k.1 k.2 tw th f d u _ _ Hslot)
    as (n1 & s1 & Hins1 & Hoff1 & _ & _ & _ & _ & _ & _ & _ & l & Hl & Hd3).
  simpl in Hl, Hd3. fold k in Hl, Hd3.
  rewrite Hd2, lookup_insert_eq in Hl. injection Hl as Hl.
  apply app_inj_tail in Hl as [<- _].
  assert (freeSlot s1 k.1 k.2 = Some (offsetOf tp)) as Hslot'.
  { unfold freeSlot. simpl. fold k. rewrite Hd3.
    destruct (l0 ++ [offsetOf tp]) as [|o l'] eqn:Hl'.
    - by destruct l0.
    - rewrite lookup_insert_eq. simpl. rewrite <- Hl'. apply last_snoc. }
  destruct (insert_hit k.1 k.2 tw' th' f' d' u' _ _ Hslot')
    as (n2 & s2 & Hins2 & Hoff2 & _).
  exists n1, s1, n2, s2. auto.
Qed.


(** ** Oversize rejection *)

Lemma freeSlot_oversized s w h :
  sizesFit cfg s -> oversized w h -> freeSlot s w h = None.
Proof.
  intros [_ Hd] Hbig. unfold freeSlot.
  destruct (discarded_ s !! (w, h)) as [l|] eqn:Hl; simpl; [|reflexivity].
  destruct l as [|o l]; [reflexivity|].
  destruct (Hd w h (o :: l) Hl) as [? ?]; [done|].
  unfold oversized in Hbig. lia.
Qed.

(** C5. In every state of the allocator, an insert whose width exceeds the
    page width or whose height exceeds the page height returns no record
    and leaves the whole state as it was: cursor, free-list, live records
    and the backend log. *)
Theorem insert_oversized_rejected w h tw th f d u s :
  reachable s ->
  w > width_ cfg \/ h > height_ cfg ->
  insert w h tw th f d u s = (None, s).
Proof.
  intros Hreach Hbig.
  assert (oversized w h) as Hover by (unfold oversized; lia).
  rewrite insert_miss
    by (apply freeSlot_oversized; [by apply sizesFit_reachable | exact Hover]).
  unfold TextureAtlasAllocator.insertFresh.
  apply oversized_test in Hover. by rewrite Hover.
Qed.

(** ** Failing inserts *)

(** What [insert] sends to the backend: an upload after at most one atlas
    creation when it returns a record, nothing when it returns none. *)
Lemma insert_log w h tw th f d u s :
  match insert w h tw th f d u s with
  | (Some node, s') =>
      exists pre,
        atlasBackend_ s' =
          atlasBackend_ s ++ pre ++ [UploadTexture (fst node) (snd node) d f] /\
        (pre = [] \/ pre = [CreateAtlas (currentInstanceId_ s + 1)])
  | (None, s') => atlasBackend_ s' = atlasBackend_ s
  end.
Proof.
  destruct (insert w h tw th f d u s) as [[node|] s'] eqn:Hins.
  - destruct (insert_some _ _ _ _ _ _ _ _ _ _ Hins)
      as (_ & _ & _ & _ & _ & [(_ & _ & Hlog)|(s1 & _ & _ & Hadv & _ & _ & Hlog)]).
    + exists []. auto.
    + destruct (advance_frame _ _ _ _ _ Hadv)
        as (_ & _ & _ & [[Hl _]|(Hl & _)]); rewrite Hlog, Hl.
      * exists []. auto.
      * eexists. rewrite <- app_assoc. eauto.
  - destruct (insert_none _ _ _ _ _ _ _ _ _ Hins) as (_ & [[_ ->]|[_ Hadv]]);
      [reflexivity|].
    by destruct (advance_none _ _ _ _ Hadv) as (_ & Hlog & _).
Qed.

(** C9, as the code has it. An insert that returns a record sends the
    backend one upload, preceded by at most one atlas creation.  An insert
    that returns none sends nothing and leaves the free-list and the live
    records alone; it leaves the cursor alone when the size does not fit a
    page, and otherwise moves the cursor to the sentinel position (x = page
    width, y = page height, layer = depth, row height 0). *)
Theorem insert_uploads_or_fails w h tw th f d u s :
  match insert w h tw th f d u s with
  | (Some node, s') =>
      exists pre,
        atlasBackend_ s' =
          atlasBackend_ s ++ pre ++ [UploadTexture (fst node) (snd node) d f] /\
        (pre = [] \/ pre = [CreateAtlas (currentInstanceId_ s + 1)])
  | (None, s') =>
      discarded_ s' = discarded_ s /\
      textureInfos_ s' = textureInfos_ s /\
      atlasBackend_ s' = atlasBackend_ s /\
      (oversized w h /\ cursor s' = cursor s
       \/
       ~ oversized w h /\
       cursor s' =
         (currentInstanceId_ s, depth_ cfg, width_ cfg, height_ cfg, 0))
  end.
Proof.
  pose proof (insert_log w h tw th f d u s) as Hlog.
  destruct (insert w h tw th f d u s) as [[node|] s'] eqn:Hins; [exact Hlog|].
  destruct (insert_none _ _ _ _ _ _ _ _ _ Hins) as (_ & [[Hbig ->]|[Hfit Hadv]]).
  - auto 10.
  - destruct (advance_frame _ _ _ _ _ Hadv) as (Hd & Hti & _).
    destruct (advance_none _ _ _ _ Hadv) as (Hcur & _).
    auto 10.
Qed.

(** *** What [getOffsetAndAdvance] returns *)

(** The offset returned is the cursor position reached after the wraps,
    before the horizontal advance. *)
Lemma advance_some w h s o s' :
  getOffsetAndAdvance w h s = (Some o, s') ->
  Offset.i o = currentInstanceId_ s' /\
  Offset.z o = currentZ_ s' /\
  Offset.y o = currentY_ s' /\
  currentX_ s' = Offset.x o + (w + HorizontalGap) /\
  (Offset.x o = currentX_ s /\ currentX_ s + HorizontalGap + w < width_ cfg /\
   currentY_ s' = currentY_ s /\ currentZ_ s' = currentZ_ s /\
   currentInstanceId_ s' = currentInstanceId_ s /\
   maxTextureHeightInCurrentRow_ s' = Z.max (maxTextureHeightInCurrentRow_ s) h
   \/
   Offset.x o = 0 /\ ~ currentX_ s + HorizontalGap + w < width_ cfg).
Proof.
  unfold_advance. zcases; intros [= <- <-]; simpl;
    (repeat (split; [reflexivity|]));
    first [ left; repeat split; (reflexivity || lia)
          | right; split; (reflexivity || lia) ].
Qed.

(** ** Placement after a wrap *)

(** C8, as the code has it. When the packing advance wraps it does not
    evaluate the fit conditions again: it places at x = 0 of the row it
    wrapped to.  An offset it returns is either the unchanged cursor x,
    which satisfies the row-fit condition x + gap + w < page width, or
    x = 0 after a wrap; in both cases x + w <= page width when the request
    is no wider than a page and the gap is not negative. *)
Theorem advance_places_in_row_or_at_row_start w h s o s' :
  getOffsetAndAdvance w h s = (Some o, s') ->
  (Offset.x o = currentX_ s /\ Offset.x o + HorizontalGap + w < width_ cfg
   \/
   Offset.x o = 0 /\ ~ currentX_ s + HorizontalGap + w < width_ cfg) /\
  (0 <= HorizontalGap -> w <= width_ cfg -> Offset.x o + w <= width_ cfg).
Proof.
  intros Hadv.
  destruct (advance_some _ _ _ _ _ Hadv) as (_ & _ & _ & _ & [H|H]).
  - destruct H as (Hx & Hfit & _). rewrite Hx. split; [left; auto | lia].
  - destruct H as (Hx & Hfit). rewrite Hx. split; [right; auto | lia].
Qed.

(** ** The instance identifier *)

Lemma advance_instance w h s r s' :
  instanceInRange (currentInstanceId_ s) ->
  getOffsetAndAdvance w h s = (r, s') ->
  instanceInRange (currentInstanceId_ s').
Proof.
  intros Hr Hadv. unfold instanceInRange in *.
  destruct (advance_frame _ _ _ _ _ Hadv) as (_ & _ & _ & [[_ ->]|(_ & -> & ? & _)]);
    lia.
Qed.

Lemma instancesInRange_exec op s :
  1 <= maxInstances_ cfg ->
  instancesInRange s -> instancesInRange (snd (exec op s)).
Proof.
  intros Hmax [Hi Hslots]. split.
  - destruct (exec_cursor op s)
      as [Hc|[(w & h & tw & th & f & d & u & _ & _ & _ & Hc)| ->]].
    + injection Hc as -> _ _ _ _. exact Hi.
    + injection Hc as -> _ _ _ _.
      destruct (getOffsetAndAdvance w h s) as [r s1] eqn:Hadv.
      by apply (advance_instance w h s r s1).
    + unfold instanceInRange. simpl. lia.
  - apply (slotsSatisfy_exec (fun o _ _ => instanceInRange (Offset.i o)));
      [|exact Hslots].
    destruct op as [w h tw th f d u|p|]; [|exact I..].
    intros o s1 _ _ Hadv.
    destruct (advance_some _ _ _ _ _ Hadv) as (-> & _).
    by apply (advance_instance w h s (Some o) s1).
Qed.

Lemma instancesInRange_reachable s :
  1 <= maxInstances_ cfg -> reachable s -> instancesInRange s.
Proof.
  intros Hmax. apply reachable_inv; clear s.
  - split; [unfold instanceInRange; simpl; lia | apply slotsSatisfy_construct].
  - intros op s _ IH. by apply instancesInRange_exec.
Qed.

(** C7. In every state reached by construction and any sequence of insert,
    release and clear calls of an allocator with at least one instance, the
    current instance identifier lies in
    [baseInstanceId, baseInstanceId + maxInstances); so does the instance of
    every live record and of every record a further insert returns. *)
Theorem instance_id_in_range s :
  1 <= maxInstances_ cfg ->
  reachable s ->
  instanceInRange (currentInstanceId_ s) /\
  (forall n, n ∈ textureInfos_ s -> instanceInRange (TextureInfo.atlas (snd n))) /\
  (forall op node s',
      exec op s = (Some node, s') ->
      instanceInRange (TextureInfo.atlas (snd node))).
Proof.
  intros Hmax Hreach.
  pose proof (instancesInRange_reachable s Hmax Hreach) as (Hi & Hl & _).
  split; [exact Hi|]. split; [by apply Forall_forall|].
  intros op node s' Hexec.
  pose proof (instancesInRange_reachable _ Hmax (reachable_exec op s Hreach))
    as (_ & Hl' & _).
  rewrite Hexec in Hl'. simpl in Hl'.
  destruct op as [w h tw th f d u|p|]; simpl in Hexec; [|discriminate..].
  destruct (insert_some _ _ _ _ _ _ _ _ _ _ Hexec) as (_ & _ & _ & Hti & _).
  rewrite Hti in Hl'. apply Forall_app in Hl' as [_ Hnode].
  by apply Forall_inv in Hnode.
Qed.

(** ** Exhaustion *)

Lemma createdIds_app l1 l2 : createdIds (l1 ++ l2) = createdIds l1 ++ createdIds l2.
Proof.
  induction l1 as [|[id|id|p ti d f] l1 IH]; simpl; [reflexivity| |exact IH..].
  by rewrite IH.
Qed.

(** The backend log after one call: the commands of the packing advance,
    then the upload of a successful insert. *)
Lemma exec_createdIds op s :
  createdIds (atlasBackend_ (snd (exec op s))) = createdIds (atlasBackend_ s) /\
  (currentInstanceId_ (snd (exec op s)) = currentInstanceId_ s \/ op = OpClear) \/
  createdIds (atlasBackend_ (snd (exec op s)))
    = createdIds (atlasBackend_ s) ++ [currentInstanceId_ s + 1] /\
  currentInstanceId_ (snd (exec op s)) = currentInstanceId_ s + 1 /\
  currentInstanceId_ s + 1 < instanceBaseId_ cfg + maxInstances_ cfg.
Proof.
  destruct op as [w h tw th f d u|p|]; simpl.
  - destruct (insert w h tw th f d u s) as [[node|] s'] eqn:Hins; simpl.
    + destruct (insert_some _ _ _ _ _ _ _ _ _ _ Hins)
        as (_ & _ & _ & _ & _ & [(_ & Hc & Hl)|(s1 & _ & _ & Hadv & Hc & _ & Hl)]);
        rewrite Hl, createdIds_app, app_nil_r; injection Hc as Hc _ _ _ _;
        rewrite Hc; [by auto|].
      destruct (advance_frame _ _ _ _ _ Hadv)
        as (_ & _ & _ & [[-> ->]|(-> & -> & ? & _)]); [by auto|].
      right. by rewrite createdIds_app.
    + destruct (insert_none _ _ _ _ _ _ _ _ _ Hins) as (_ & [[_ ->]|[_ Hadv]]);
        [by auto|].
      destruct (advance_none _ _ _ _ Hadv) as (Hc & -> & _).
      injection Hc as -> _ _ _ _. by auto.
  - left. destruct (release_frame p s) as (Hc & -> & _).
    injection Hc as -> _ _ _ _. by auto.
  - by auto.
Qed.

Lemma cursorSane_reachable s : reachable s -> cursorSane s.
Proof.
  apply reachable_inv; clear s.
  - unfold cursorSane; simpl. lia.
  - intros op s _ IH.
    assert (forall s1 s2, cursor s2 = cursor s1 -> cursorSane s1 -> cursorSane s2)
      as Hcur.
    { unfold cursorSane. intros s1 s2 [= -> -> _ _ ->]. auto. }
    destruct (exec_cursor op s)
      as [Hc|[(w & h & tw & th & f & d & u & _ & _ & _ & Hc)| ->]].
    + by apply (Hcur s).
    + apply (Hcur (snd (getOffsetAndAdvance w h s))); [exact Hc|].
      revert IH. clear. unfold cursorSane. unfold_advance.
      zcases; simpl; lia.
    + unfold cursorSane; simpl. lia.
Qed.

Lemma exhausted_cursor s1 s2 : cursor s2 = cursor s1 -> exhausted s1 -> exhausted s2.
Proof. unfold exhausted, cursorFull. intros [= -> -> -> -> ->]. auto. Qed.

(** The first failure of the advance leaves an exhausted state. *)
Lemma advance_none_exhausted w h s s' :
  getOffsetAndAdvance w h s = (None, s') -> exhausted s'.
Proof.
  intros Hadv. destruct (advance_none _ _ _ _ Hadv) as (Hc & _ & _ & _ & _ & Hi).
  unfold exhausted, cursorFull. injection Hc as -> -> -> -> ->. auto.
Qed.

(** From an exhausted state the advance fails again and changes nothing. *)
Lemma advance_exhausted w h s :
  0 <= HorizontalGap -> 0 <= VerticalGap -> 0 <= w -> 0 <= h ->
  exhausted s -> getOffsetAndAdvance w h s = (None, s).
Proof.
  intros Hhg Hvg Hw Hh ((Hx & Hy & Hz) & Hm & Hi).
  destruct s; simpl in *; subst. unfold_advance.
  zcases; try lia. reflexivity.
Qed.

Lemma insert_exhausted w h tw th f d u s :
  0 <= HorizontalGap -> 0 <= VerticalGap -> 0 <= w -> 0 <= h ->
  exhausted s -> freeSlot s w h = None ->
  insert w h tw th f d u s = (None, s).
Proof.
  intros Hhg Hvg Hw Hh Hex Hslot. rewrite (insert_miss _ _ _ _ _ _ _ _ Hslot).
  unfold TextureAtlasAllocator.insertFresh.
  destruct (_ || _); [reflexivity|].
  by rewrite advance_exhausted.
Qed.

(** Inserts and releases keep an exhausted allocator exhausted and create
    no instance. *)
Lemma exhausted_run ops s :
  0 <= HorizontalGap -> 0 <= VerticalGap ->
  Forall sizeOk ops -> forallb (fun op => negb (isClear op)) ops = true ->
  exhausted s ->
  exhausted (run ops s) /\
  createdIds (atlasBackend_ (run ops s)) = createdIds (atlasBackend_ s).
Proof.
  intros Hhg Hvg Hok. revert s.
  induction Hok as [|op ops Hop _ IH]; intros s Hnc Hex; simpl; [auto|].
  simpl in Hnc. apply andb_true_iff in Hnc as [Hop' Hnc].
  assert (exhausted (snd (exec op s)) /\
          createdIds (atlasBackend_ (snd (exec op s))) = createdIds (atlasBackend_ s))
    as [Hex' Hlog'].
  { split.
    - destruct (exec_cursor op s)
        as [Hc|[(w & h & tw & th & f & d & u & -> & _ & _ & Hc)| ->]];
        [by apply (exhausted_cursor s)| |discriminate].
      destruct Hop as [Hw Hh].
      rewrite (advance_exhausted w h s) in Hc by assumption.
      by apply (exhausted_cursor s).
    - destruct (exec_createdIds op s) as [[Hl _]|(_ & _ & Hi)]; [exact Hl|].
      destruct Hex as (_ & _ & Hni). contradiction. }
  destruct (IH _ Hnc Hex') as [Hex2 Hlog2]. split; [exact Hex2 | congruence].
Qed.

(** With a single instance the backend is asked for one atlas only, the one
    of the constructor. *)
Lemma single_instance_created s :
  maxInstances_ cfg = 1 -> reachable s ->
  createdIds (atlasBackend_ s) = [instanceBaseId_ cfg].
Proof.
  intros Hmax. revert s.
  apply (reachable_inv
           (fun s => createdIds (atlasBackend_ s) = [instanceBaseId_ cfg]));
    [reflexivity|].
  intros op s Hreach IH.
  destruct (exec_createdIds op s) as [[-> _]|(_ & _ & Hi)]; [exact IH|].
  destruct (cursorSane_reachable s Hreach) as (Hbase & _). lia.
Qed.

(** The advance fails when the row, the next row, the next layer and the
    next instance are all out of reach. *)
Lemma advance_fails w h s :
  ~ currentX_ s + HorizontalGap + w < width_ cfg ->
  ~ currentY_ s + maxTextureHeightInCurrentRow_ s + VerticalGap + h < height_ cfg ->
  ~ currentZ_ s + 1 < depth_ cfg ->
  ~ currentInstanceId_ s + 1 < instanceBaseId_ cfg + maxInstances_ cfg ->
  exists s', getOffsetAndAdvance w h s = (None, s').
Proof.
  intros Hx Hy Hz Hi. unfold_advance. zcases; try lia. eauto.
Qed.

(** C6. With depth 1 and a single instance, once neither the current row
    nor a new row can take the request, insert fails, sends the backend
    nothing (the only atlas ever created is the constructor's) and leaves the
    cursor at the sentinel position x = page width, y = page height,
    layer = depth.  After any further inserts and releases the cursor is
    still there, no atlas has been created, and an insert that finds no slot
    of its size in the free-list fails and changes nothing. *)
Theorem single_page_exhaustion w h tw th f d u s :
  depth_ cfg = 1 -> maxInstances_ cfg = 1 ->
  0 <= HorizontalGap -> 0 <= VerticalGap ->
  reachable s ->
  freeSlot s w h = None ->
  w <= width_ cfg -> h <= height_ cfg ->
  ~ currentX_ s + HorizontalGap + w < width_ cfg ->
  ~ currentY_ s + maxTextureHeightInCurrentRow_ s + VerticalGap + h < height_ cfg ->
  exists s1,
    insert w h tw th f d u s = (None, s1) /\
    atlasBackend_ s1 = atlasBackend_ s /\
    createdIds (atlasBackend_ s1) = [instanceBaseId_ cfg] /\
    cursorFull cfg s1 /\
    forall ops,
      Forall sizeOk ops -> forallb (fun op => negb (isClear op)) ops = true ->
      cursorFull cfg (run ops s1) /\
      createdIds (atlasBackend_ (run ops s1)) = [instanceBaseId_ cfg] /\
      forall w' h' tw' th' f' d' u',
        0 <= w' -> 0 <= h' -> freeSlot (run ops s1) w' h' = None ->
        insert w' h' tw' th' f' d' u' (run ops s1) = (None, run ops s1).
Proof.
  intros Hdepth Hmax Hhg Hvg Hreach Hslot Hw Hh Hx Hy.
  destruct (cursorSane_reachable s Hreach) as (Hbase & _ & Hz).
  destruct (advance_fails w h s Hx Hy) as [s1 Hadv]; [lia..|].
  assert (insert w h tw th f d u s = (None, s1)) as Hins.
  { rewrite (insert_miss _ _ _ _ _ _ _ _ Hslot).
    unfold TextureAtlasAllocator.insertFresh.
    destruct (_ || _) eqn:Hbig.
    - apply oversized_test in Hbig. unfold oversized in Hbig. lia.
    - by rewrite Hadv. }
  pose proof (advance_none_exhausted _ _ _ _ Hadv) as Hex.
  destruct (advance_none _ _ _ _ Hadv) as (_ & Hlog & _).
  assert (createdIds (atlasBackend_ s1) = [instanceBaseId_ cfg]) as Hc1.
  { rewrite Hlog. by apply single_instance_created. }
  exists s1. split; [exact Hins|]. split; [exact Hlog|]. split; [exact Hc1|].
  split; [apply Hex|].
  intros ops Hok Hnc.
  destruct (exhausted_run ops s1 Hhg Hvg Hok Hnc Hex) as [Hex2 Hlog2].
  split; [apply Hex2|]. split; [congruence|].
  intros w' h' tw' th' f' d' u' Hw' Hh' Hslot'.
  by apply insert_exhausted.
Qed.

(** ** Teardown *)

Lemma destroyedIds_app l1 l2 :
  destroyedIds (l1 ++ l2) = destroyedIds l1 ++ destroyedIds l2.
Proof.
  induction l1 as [|[id|id|p ti d f] l1 IH]; simpl; [reflexivity|exact IH| |exact IH].
  by rewrite IH.
Qed.

Lemma destroyedIds_fmap (ids : list Z) : destroyedIds (DestroyAtlas <$> ids) = ids.
Proof. induction ids as [|id ids IH]; simpl; [reflexivity | f_equal; exact IH]. Qed.

(** The destructor appends its commands to the log and sends nothing else. *)
Lemma destruct_log s :
  atlasBackend_ (TextureAtlasAllocator.destruct_ cfg s)
  = atlasBackend_ s ++ TextureAtlasAllocator.destroyCommands cfg s.
Proof.
  unfold TextureAtlasAllocator.destruct_.
  generalize (TextureAtlasAllocator.destroyCommands cfg s) as cs. intros cs.
  revert s. induction cs as [|c cs IH]; intros s; simpl.
  - by rewrite app_nil_r.
  - rewrite IH. simpl. by rewrite <- app_assoc.
Qed.

(** The destructor asks for the instances from the base id to the current
    one, each once, in order. *)
Lemma destroyed_range s :
  destroyedIds (TextureAtlasAllocator.destroyCommands cfg s)
  = seqZ (instanceBaseId_ cfg) (currentInstanceId_ s - instanceBaseId_ cfg + 1).
Proof. unfold TextureAtlasAllocator.destroyCommands. apply destroyedIds_fmap. Qed.

(** As long as [clear] is not called, the instances created are those from
    the base id to the current one, each once, in order. *)
Lemma created_range_no_clear ops :
  forallb (fun op => negb (isClear op)) ops = true ->
  createdIds (atlasBackend_ (run ops construct))
  = seqZ (instanceBaseId_ cfg)
         (currentInstanceId_ (run ops construct) - instanceBaseId_ cfg + 1).
Proof.
  induction ops as [|op ops IH] using rev_ind; intros Hnc.
  - simpl. replace (instanceBaseId_ cfg - instanceBaseId_ cfg + 1) with 1 by lia.
    reflexivity.
  - rewrite forallb_app in Hnc. apply andb_true_iff in Hnc as [Hnc Hop].
    simpl in Hop. rewrite andb_true_r in Hop.
    rewrite run_app. simpl.
    assert (reachable (run ops construct)) as Hreach by (by eexists).
    destruct (cursorSane_reachable _ Hreach) as (Hbase & _).
    destruct (exec_createdIds op (run ops construct))
      as [[-> [-> | ->]]|(-> & -> & _)]; [by apply IH|discriminate|].
    rewrite (IH Hnc).
    replace (currentInstanceId_ (run ops construct) + 1 - instanceBaseId_ cfg + 1)
      with ((currentInstanceId_ (run ops construct) - instanceBaseId_ cfg + 1) + 1)
      by lia.
    rewrite (seqZ_app _ (currentInstanceId_ (run ops construct)
                         - instanceBaseId_ cfg + 1) 1) by lia.
    f_equal. rewrite seqZ_cons, seqZ_nil by lia. f_equal. lia.
Qed.

(** X1. Teardown without [clear]: the destructor asks the backend to destroy
    exactly the instances that were created, each of them once. *)
Lemma destroy_covers_created_no_clear ops :
  forallb (fun op => negb (isClear op)) ops = true ->
  let s := run ops construct in
  destroyedIds (atlasBackend_ (TextureAtlasAllocator.destruct_ cfg s))
    = createdIds (atlasBackend_ s) /\
  NoDup (createdIds (atlasBackend_ s)).
Proof.
  intros Hnc s. subst s.
  assert (destroyedIds (atlasBackend_ (run ops construct)) = []) as Hnone.
  { clear Hnc. cut (forall s, reachable s -> destroyedIds (atlasBackend_ s) = []).
    { intros H. apply H. by eexists. }
    apply (reachable_inv (fun s => destroyedIds (atlasBackend_ s) = []));
      [reflexivity|].
    intros op s _ IH.
    destruct op as [w h tw th f d u|p|]; simpl.
    - pose proof (insert_log w h tw th f d u s) as Hlog.
      destruct (insert w h tw th f d u s) as [[node|] s']; simpl.
      + destruct Hlog as (pre & -> & [-> | ->]);
          rewrite !destroyedIds_app, IH; reflexivity.
      + by rewrite Hlog.
    - by destruct (release_frame p s) as (_ & -> & _).
    - exact IH. }
  rewrite destruct_log, destroyedIds_app, Hnone, destroyed_range,
    created_range_no_clear by exact Hnc.
  split; [reflexivity | apply NoDup_seqZ].
Qed.

(** ** Non-overlap *)



(** The four ways in which the advance places: in the current row, in a new
    row of the layer, in a new layer, in a new instance. *)
Lemma advance_cases w h s o s' :
  getOffsetAndAdvance w h s = (Some o, s') ->
  let i := currentInstanceId_ s in
  let z := currentZ_ s in
  let x := currentX_ s in
  let y := currentY_ s in
  let m := maxTextureHeightInCurrentRow_ s in
  x + HorizontalGap + w < width_ cfg /\
  o = Offset.mk i x y z /\
  cursor s' = (i, z, x + (w + HorizontalGap), y, Z.max m h)
  \/
  ~ x + HorizontalGap + w < width_ cfg /\
  y + m + VerticalGap + h < height_ cfg /\
  o = Offset.mk i 0 (y + (m + VerticalGap)) z /\
  cursor s' = (i, z, 0 + (w + HorizontalGap), y + (m + VerticalGap), Z.max m h)
  \/
  ~ x + HorizontalGap + w < width_ cfg /\
  ~ y + m + VerticalGap + h < height_ cfg /\
  z + 1 < depth_ cfg /\
  o = Offset.mk i 0 0 (z + 1) /\
  cursor s' = (i, z + 1, 0 + (w + HorizontalGap), 0, Z.max 0 h)
  \/
  ~ x + HorizontalGap + w < width_ cfg /\
  ~ y + m + VerticalGap + h < height_ cfg /\
  ~ z + 1 < depth_ cfg /\
  i + 1 < instanceBaseId_ cfg + maxInstances_ cfg /\
  o = Offset.mk (i + 1) 0 0 0 /\
  cursor s' = (i + 1, 0, 0 + (w + HorizontalGap), 0, Z.max 0 h).
Proof.
  unfold_advance. unfold cursor.
  zcases; intros [= <- <-]; simpl;
    first [ left; repeat split; (reflexivity || lia)
          | right; left; repeat split; (reflexivity || lia)
          | right; right; left; repeat split; (reflexivity || lia)
          | right; right; right; repeat split; (reflexivity || lia) ].
Qed.

(** ** Page bounds *)

(** Induction over a run whose calls all satisfy [ok]. *)
Lemma run_inv (P : State -> Prop) (ok : Op -> Prop) :
  P construct ->
  (forall op s, ok op -> reachable s -> P s -> P (snd (exec op s))) ->
  forall ops, Forall ok ops -> P (run ops construct).
Proof.
  intros H0 Hstep ops.
  induction ops as [|op ops IH] using rev_ind; intros Hok; [exact H0|].
  apply Forall_app in Hok as [Hok Hop]. apply Forall_inv in Hop.
  rewrite run_app. simpl. apply Hstep; [exact Hop | by eexists | by apply IH].
Qed.

Lemma advance_inPage w h s r s' :
  0 <= HorizontalGap -> 0 <= VerticalGap -> 1 <= depth_ cfg ->
  0 <= w <= width_ cfg -> 0 <= h ->
  cursorInPage s ->
  getOffsetAndAdvance w h s = (r, s') ->
  cursorInPage s' /\
  match r with Some o => slotInPage o w h | None => True end.
Proof.
  intros Hhg Hvg Hdepth Hw Hh [Hm Hcur] Hadv.
  destruct r as [o|].
  - destruct Hcur as [Hex|Hcur].
    { rewrite (advance_exhausted w h s) in Hadv by (assumption || lia).
      discriminate. }
    unfold cursorInPage, slotInPage.
    destruct (advance_cases _ _ _ _ _ Hadv)
      as [(? & -> & Hc)|[(? & ? & -> & Hc)|[(? & ? & ? & -> & Hc)
         |(? & ? & ? & ? & -> & Hc)]]];
      injection Hc as _ -> -> -> ->; simpl; lia.
  - split; [|exact I]. split.
    + destruct (advance_none _ _ _ _ Hadv) as (Hc & _).
      injection Hc as _ _ _ _ ->. lia.
    + left. by eapply advance_none_exhausted.
Qed.

Lemma cursorInPage_cursor s1 s2 :
  cursor s2 = cursor s1 -> cursorInPage s1 -> cursorInPage s2.
Proof.
  unfold cursorInPage, exhausted, cursorFull. intros [= -> -> -> -> ->]. auto.
Qed.

(** X3. Placements stay left of the right edge and inside the layers of the
    atlas, whatever the calls, as long as image dimensions and gaps are not
    negative and the atlas has at least one layer. *)
Lemma slots_within_width_and_depth ops :
  0 <= HorizontalGap -> 0 <= VerticalGap -> 1 <= depth_ cfg ->
  Forall sizeOk ops ->
  let s := run ops construct in
  cursorInPage s /\ slotsSatisfy slotInPage s /\
  forall w h tw th f d u node s',
    0 <= w -> 0 <= h ->
    insert w h tw th f d u s = (Some node, s') ->
    slotInPage (offsetOf (snd node)) w h.
Proof.
  intros Hhg Hvg Hdepth Hok.
  assert (cursorInPage (run ops construct) /\
          slotsSatisfy slotInPage (run ops construct)) as [Hcur Hslots].
  { revert ops Hok.
    apply (run_inv (fun s => cursorInPage s /\ slotsSatisfy slotInPage s) sizeOk).
    - split; [|apply slotsSatisfy_construct].
      unfold cursorInPage; simpl. split; [lia|]. right. lia.
    - intros op s Hop _ [Hcur Hslots]. split.
      + destruct (exec_cursor op s)
          as [Hc|[(w & h & tw & th & f & d & u & -> & _ & Hfit & Hc)| ->]].
        * by apply (cursorInPage_cursor s).
        * destruct Hop as [Hw Hh]. unfold oversized in Hfit.
          destruct (getOffsetAndAdvance w h s) as [r s1] eqn:Hadv.
          apply (cursorInPage_cursor s1); [exact Hc|].
          apply (advance_inPage w h s r s1); (assumption || lia).
        * unfold cursorInPage; simpl. split; [lia|]. right. lia.
      + apply slotsSatisfy_exec; [|exact Hslots].
        destruct op as [w h tw th f d u|p|]; [|exact I..].
        destruct Hop as [Hw Hh].
        intros o s1 _ Hfit Hadv. unfold oversized in Hfit.
        apply (advance_inPage w h s (Some o) s1); (assumption || lia). }
  intros s. split; [exact Hcur|]. split; [exact Hslots|].
  intros w h tw th f d u node s' Hw Hh Hins.
  assert (slotsSatisfy slotInPage
            (snd (exec (OpInsert w h tw th f d u) (run ops construct)))) as [Hl _].
  { apply slotsSatisfy_exec; [|exact Hslots].
    intros o s1 _ Hfit Hadv. unfold oversized in Hfit.
    apply (advance_inPage w h (run ops construct) (Some o) s1); (assumption || lia). }
  simpl in Hl. fold s in Hl. rewrite Hins in Hl. simpl in Hl.
  destruct (insert_some _ _ _ _ _ _ _ _ _ _ Hins) as (_ & Hw' & Hh' & Hti & _).
  rewrite Hti in Hl. apply Forall_app in Hl as [_ Hnode].
  apply Forall_inv in Hnode. by rewrite Hw', Hh' in Hnode.
Qed.

(** X4. The vertical bound holds of the placements that open a row: the advance
    checks the height only when it wraps. *)
Lemma wrapped_placement_within_height w h s o s' :
  0 <= h <= height_ cfg ->
  getOffsetAndAdvance w h s = (Some o, s') ->
  ~ currentX_ s + HorizontalGap + w < width_ cfg ->
  Offset.y o + h <= height_ cfg.
Proof.
  intros Hh Hadv Hx.
  destruct (advance_cases _ _ _ _ _ Hadv)
    as [(? & _)|[(_ & ? & -> & _)|[(_ & _ & _ & -> & _)|(_ & _ & _ & _ & -> & _)]]];
    simpl; lia.
Qed.

(** ** Forward evaluation of the advance *)

Lemma advance_in_row w h s :
  currentX_ s + HorizontalGap + w < width_ cfg ->
  getOffsetAndAdvance w h s
  = TextureAtlasAllocator.place HorizontalGap w h s.
Proof. intros Hx. unfold_advance. zcases; (reflexivity || lia). Qed.

Lemma advance_new_row w h s :
  ~ currentX_ s + HorizontalGap + w < width_ cfg ->
  currentY_ s + maxTextureHeightInCurrentRow_ s + VerticalGap + h < height_ cfg ->
  getOffsetAndAdvance w h s
  = TextureAtlasAllocator.place HorizontalGap w h
      (set_currentY (currentY_ s + (maxTextureHeightInCurrentRow_ s + VerticalGap))
                    (set_currentX 0 s)).
Proof. intros Hx Hy. unfold_advance. zcases; (reflexivity || lia). Qed.

Lemma advance_new_instance w h s :
  ~ currentX_ s + HorizontalGap + w < width_ cfg ->
  ~ currentY_ s + maxTextureHeightInCurrentRow_ s + VerticalGap + h < height_ cfg ->
  ~ currentZ_ s + 1 < depth_ cfg ->
  currentInstanceId_ s + 1 < instanceBaseId_ cfg + maxInstances_ cfg ->
  getOffsetAndAdvance w h s
  = TextureAtlasAllocator.place HorizontalGap w h
      (TextureAtlasAllocator.notifyCreateAtlas
         (set_currentInstanceId (currentInstanceId_ s + 1)
            (set_currentZ 0
               (set_maxTextureHeightInCurrentRow 0
                  (set_currentY 0 (set_currentX 0 s)))))).
Proof.
  intros Hx Hy Hz Hi. unfold_advance. zcases; try lia.
  unfold send; simpl. reflexivity.
Qed.

Lemma advance_exhausts w h s :
  ~ currentX_ s + HorizontalGap + w < width_ cfg ->
  ~ currentY_ s + maxTextureHeightInCurrentRow_ s + VerticalGap + h < height_ cfg ->
  ~ currentZ_ s + 1 < depth_ cfg ->
  ~ currentInstanceId_ s + 1 < instanceBaseId_ cfg + maxInstances_ cfg ->
  getOffsetAndAdvance w h s
  = (None,
     set_currentZ (depth_ cfg)
       (set_currentY (height_ cfg)
          (set_currentX (width_ cfg)
             (set_maxTextureHeightInCurrentRow 0 s)))).
Proof.
  intros Hx Hy Hz Hi. unfold_advance. zcases; try lia. reflexivity.
Qed.

Lemma insertFresh_placed w h tw th f d u s o s1 :
  w <= width_ cfg -> h <= height_ cfg ->
  getOffsetAndAdvance w h s = (Some o, s1) ->
  insertFresh w h tw th f d u s
  = (let node := fst (appendTextureInfo w h tw th o u s1) in
     (Some node,
      send (UploadTexture (fst node) (snd node) d f)
           (snd (appendTextureInfo w h tw th o u s1)))).
Proof.
  intros Hw Hh Hadv. unfold TextureAtlasAllocator.insertFresh.
  destruct (_ || _) eqn:Hbig.
  - apply oversized_test in Hbig. unfold oversized in Hbig. lia.
  - rewrite Hadv. reflexivity.
Qed.

Lemma insertFresh_failed w h tw th f d u s s1 :
  w <= width_ cfg -> h <= height_ cfg ->
  getOffsetAndAdvance w h s = (None, s1) ->
  insertFresh w h tw th f d u s = (None, s1).
Proof.
  intros Hw Hh Hadv. unfold TextureAtlasAllocator.insertFresh.
  destruct (_ || _) eqn:Hbig.
  - apply oversized_test in Hbig. unfold oversized in Hbig. lia.
  - rewrite Hadv. reflexivity.
Qed.

(** ** Forward evaluation of [insert] *)

Lemma insert_in_row w h tw th f d u s :
  freeSlot s w h = None ->
  w <= width_ cfg -> h <= height_ cfg ->
  currentX_ s + HorizontalGap + w < width_ cfg ->
  exists node s',
    insert w h tw th f d u s = (Some node, s') /\
    offsetOf (snd node) = TextureAtlasAllocator.offset s /\
    TextureInfo.width (snd node) = w /\ TextureInfo.height (snd node) = h /\
    cursor s' =
      (currentInstanceId_ s, currentZ_ s, currentX_ s + (w + HorizontalGap),
       currentY_ s, Z.max (maxTextureHeightInCurrentRow_ s) h) /\
    discarded_ s' = discarded_ s.
Proof.
  intros Hslot Hw Hh Hx.
  rewrite (insert_miss _ _ _ _ _ _ _ _ Hslot).
  erewrite insertFresh_placed;
    [ | exact Hw | exact Hh | rewrite advance_in_row by exact Hx; reflexivity ].
  eexists _, _. split; [reflexivity|]. repeat split.
Qed.

Lemma insert_new_row w h tw th f d u s :
  freeSlot s w h = None ->
  w <= width_ cfg -> h <= height_ cfg ->
  ~ currentX_ s + HorizontalGap + w < width_ cfg ->
  currentY_ s + maxTextureHeightInCurrentRow_ s + VerticalGap + h < height_ cfg ->
  exists node s',
    insert w h tw th f d u s = (Some node, s') /\
    offsetOf (snd node) =
      Offset.mk (currentInstanceId_ s) 0
                (currentY_ s + (maxTextureHeightInCurrentRow_ s + VerticalGap))
                (currentZ_ s) /\
    TextureInfo.width (snd node) = w /\ TextureInfo.height (snd node) = h /\
    cursor s' =
      (currentInstanceId_ s, currentZ_ s, 0 + (w + HorizontalGap),
       currentY_ s + (maxTextureHeightInCurrentRow_ s + VerticalGap),
       Z.max (maxTextureHeightInCurrentRow_ s) h) /\
    discarded_ s' = discarded_ s.
Proof.
  intros Hslot Hw Hh Hx Hy.
  rewrite (insert_miss _ _ _ _ _ _ _ _ Hslot).
  erewrite insertFresh_placed;
    [ | exact Hw | exact Hh | rewrite advance_new_row by assumption; reflexivity ].
  eexists _, _. split; [reflexivity|]. repeat split.
Qed.

(** ** Slots of the atlas *)

Lemma overlapR_sym a b : overlapR a b -> overlapR b a.
Proof. unfold overlapR. lia. Qed.

Lemma apart_app l1 l2 :
  apart (l1 ++ l2) <->
  apart l1 /\ apart l2 /\ Forall (fun a => Forall (fun b => ~ overlapR a b) l2) l1.
Proof.
  induction l1 as [|a l1 IH]; simpl.
  - split; [intros H; by repeat split | by intros (_ & H & _)].
  - rewrite Forall_app, IH, Forall_cons. tauto.
Qed.

Lemma apart_Permutation l1 l2 : l1 ≡ₚ l2 -> apart l1 -> apart l2.
Proof.
  induction 1 as [|a l1 l2 Hp IH|a b l|l1 l2 l3 _ IH1 _ IH2]; simpl; [done|..].
  - intros [Ha Hl]. split; [by rewrite <- Hp | by apply IH].
  - intros (Hb & Ha & Hl). apply Forall_cons in Hb as [Hba Hb].
    repeat split; [|done..]. constructor; [|done].
    intros Hab. by apply Hba, overlapR_sym.
  - auto.
Qed.

Lemma noOverlap_apart l : noOverlap l <-> apart (rectOf <$> l).
Proof.
  induction l as [|a l IH]; simpl; [done|].
  rewrite IH, Forall_fmap. done.
Qed.

Lemma behindR_cursor s1 s2 r : cursor s2 = cursor s1 -> behindR s1 r -> behindR s2 r.
Proof. unfold behindR. intros [= -> -> -> -> ->]. auto. Qed.

Lemma freeRects_insert (m : gmap (Z * Z) (list Offset.t)) k l :
  freeRects (<[k := l]> m) ≡ₚ rectsOf k l ++ freeRects (delete k m).
Proof.
  unfold freeRects. rewrite <- insert_delete_eq.
  rewrite map_to_list_insert by apply lookup_delete_eq.
  by rewrite bind_cons.
Qed.

Lemma freeRects_lookup (m : gmap (Z * Z) (list Offset.t)) k l :
  m !! k = Some l -> freeRects m ≡ₚ rectsOf k l ++ freeRects (delete k m).
Proof.
  intros Hl. unfold freeRects at 1.
  rewrite <- (map_to_list_delete m k l Hl). by rewrite bind_cons.
Qed.

(** Filing one more offset under a size adds one slot. *)
Lemma freeRects_push (m : gmap (Z * Z) (list Offset.t)) k o :
  freeRects (<[k := default [] (m !! k) ++ [o]]> m) ≡ₚ (o, k.1, k.2) :: freeRects m.
Proof.
  rewrite freeRects_insert. unfold rectsOf. rewrite fmap_app. simpl.
  destruct (m !! k) as [l|] eqn:Hl; simpl.
  - rewrite (freeRects_lookup m k l Hl). unfold rectsOf.
    rewrite <- app_assoc. simpl. by rewrite Permutation_middle.
  - by rewrite (delete_id m k Hl).
Qed.

(** Taking the back of the vector of a size removes one slot. *)
Lemma freeRects_pop (m : gmap (Z * Z) (list Offset.t)) k l o :
  m !! k = Some (l ++ [o]) ->
  freeRects m ≡ₚ
    (o, k.1, k.2) ::
    freeRects (match l with [] => delete k m | _ => <[k := l]> m end).
Proof.
  intros Hl. rewrite (freeRects_lookup m k _ Hl). unfold rectsOf.
  rewrite fmap_app. simpl. rewrite <- app_assoc. simpl.
  rewrite <- Permutation_middle. constructor.
  destruct l as [|o' l]; [reflexivity|].
  by rewrite freeRects_insert.
Qed.

Lemma eraseNode_Permutation p ti (l : list (Ptr * TextureInfo.t)) :
  snd <$> find (fun n : Ptr * TextureInfo.t => (fst n =? p)%nat) l = Some ti ->
  snd <$> l ≡ₚ ti :: (snd <$> TextureAtlasAllocator.eraseNode p l).
Proof.
  induction l as [|n l IH]; simpl; [discriminate|].
  destruct (fst n =? p)%nat; simpl.
  - by intros [= ->].
  - intros Hf. rewrite (IH Hf). apply perm_swap.
Qed.

Lemma liveRects_fmap (l : list (Ptr * TextureInfo.t)) :
  (fun n : Ptr * TextureInfo.t => rectOf (snd n)) <$> l = rectOf <$> (snd <$> l).
Proof. induction l as [|n l IH]; simpl; [reflexivity | f_equal; exact IH]. Qed.

Lemma liveRects_snoc (l : list (Ptr * TextureInfo.t)) node :
  (fun n : Ptr * TextureInfo.t => rectOf (snd n)) <$> (l ++ [node])
  ≡ₚ rectOf (snd node) :: ((fun n : Ptr * TextureInfo.t => rectOf (snd n)) <$> l).
Proof. rewrite fmap_app. simpl. by rewrite <- Permutation_cons_append. Qed.

(** What [insert] does to the slots: it moves a slot from the free-map to
    the live records, or it adds the slot the packing advance placed. *)
Lemma allSlots_insert w h tw th f d u s :
  match insert w h tw th f d u s with
  | (Some node, s') =>
      match freeSlot s w h with
      | Some _ => allSlots s' ≡ₚ allSlots s
      | None => allSlots s' ≡ₚ rectOf (snd node) :: allSlots s
      end
  | (None, s') => allSlots s' = allSlots s
  end.
Proof.
  destruct (insert w h tw th f d u s) as [[node|] s'] eqn:Hins.
  - destruct (freeSlot s w h) as [back|] eqn:Hslot.
    + destruct (insert_hit w h tw th f d u s back Hslot)
        as (n & s1 & Heq & Hoff & Hw & Hh & _ & _ & Hti & _ & _ & l & Hl & Hd).
      rewrite Hins in Heq. injection Heq as <- <-.
      unfold allSlots. rewrite Hti, Hd, liveRects_snoc.
      rewrite (freeRects_pop (discarded_ s) (w, h) l back Hl).
      unfold rectOf. rewrite Hoff, Hw, Hh. simpl.
      by rewrite <- Permutation_middle.
    + destruct (insert_some _ _ _ _ _ _ _ _ _ _ Hins)
        as (_ & _ & _ & Hti & _ & [(Hs & _)|(s1 & _ & _ & _ & _ & Hd & _)]).
      { congruence. }
      unfold allSlots. by rewrite Hti, Hd, liveRects_snoc.
  - destruct (insert_none _ _ _ _ _ _ _ _ _ Hins) as (_ & [[_ ->]|[_ Hadv]]);
      [reflexivity|].
    destruct (advance_frame _ _ _ _ _ Hadv) as (Hd & Hti & _).
    unfold allSlots. by rewrite Hd, Hti.
Qed.

(** [release] moves a slot from the live records to the free-map. *)
Lemma allSlots_release p s : allSlots (release p s) ≡ₚ allSlots s.
Proof.
  destruct (findNode p s) as [ti|] eqn:Hf;
    [|by rewrite (release_dead p s Hf)].
  destruct (release_live p s ti Hf) as (_ & _ & _ & Hti & Hd).
  unfold allSlots. rewrite Hti, Hd.
  rewrite (freeRects_push (discarded_ s)
             (TextureInfo.width ti, TextureInfo.height ti) (offsetOf ti)).
  simpl. fold (rectOf ti). rewrite <- Permutation_middle.
  change (rectOf ti :: ?a ++ ?b) with ((rectOf ti :: a) ++ b).
  apply Permutation_app; [|reflexivity].
  rewrite !liveRects_fmap.
  rewrite <- fmap_cons. apply fmap_Permutation. symmetry.
  by apply eraseNode_Permutation.
Qed.

(** What one call other than [clear] does to the slots and to the cursor. *)
Lemma allSlots_exec op s :
  isClear op = false ->
  allSlots (snd (exec op s)) ≡ₚ allSlots s /\ cursor (snd (exec op s)) = cursor s
  \/
  allSlots (snd (exec op s)) = allSlots s /\
  (exists w h s1, getOffsetAndAdvance w h s = (None, s1) /\
                  cursor (snd (exec op s)) = cursor s1)
  \/
  exists w h tw th f d u o s1,
    op = OpInsert w h tw th f d u /\
    getOffsetAndAdvance w h s = (Some o, s1) /\
    cursor (snd (exec op s)) = cursor s1 /\
    allSlots (snd (exec op s)) ≡ₚ (o, w, h) :: allSlots s.
Proof.
  intros Hnc. destruct op as [w h tw th f d u|p|]; simpl; [| |discriminate].
  - pose proof (allSlots_insert w h tw th f d u s) as Hslots.
    destruct (insert w h tw th f d u s) as [[node|] s'] eqn:Hins; simpl.
    + destruct (insert_some _ _ _ _ _ _ _ _ _ _ Hins)
        as (_ & Hw & Hh & _ & _ & [(Hs & Hc & _)|(s1 & Hs & _ & Hadv & Hc & _)]);
        rewrite Hs in Hslots; [by left|].
      right; right.
      exists w, h, tw, th, f, d, u, (offsetOf (snd node)), s1.
      repeat split; [exact Hadv | exact Hc|].
      rewrite Hslots. unfold rectOf. by rewrite Hw, Hh.
    + destruct (insert_none _ _ _ _ _ _ _ _ _ Hins) as (_ & [[_ ->]|[_ Hadv]]);
        [by left|].
      right; left. split; [exact Hslots | eauto].
  - left. split; [apply allSlots_release | apply release_frame].
Qed.

(** A placement made by the advance lies behind the cursor it leaves, and
    overlaps no slot that lay behind the cursor it found. *)
Lemma advance_behindR w h s o s' :
  0 <= HorizontalGap -> 0 <= VerticalGap -> 0 <= w -> 0 <= h ->
  0 <= maxTextureHeightInCurrentRow_ s ->
  getOffsetAndAdvance w h s = (Some o, s') ->
  behindR s' (o, w, h) /\
  forall r, behindR s r -> behindR s' r /\ ~ overlapR (o, w, h) r.
Proof.
  intros Hhg Hvg Hw Hh Hm Hadv.
  destruct (advance_cases _ _ _ _ _ Hadv)
    as [(? & -> & Hc)|[(? & ? & -> & Hc)|[(? & ? & ? & -> & Hc)
       |(? & ? & ? & ? & -> & Hc)]]];
    injection Hc as Hi Hz Hx Hy Hmax;
    unfold behindR, overlapR; rewrite Hi, Hz, Hx, Hy, Hmax; simpl;
    (split; [lia|]); intros [[ro rw] rh]; simpl; lia.
Qed.

Lemma slotsApart_exec op s :
  0 <= HorizontalGap -> 0 <= VerticalGap ->
  sizeOk op -> isClear op = false ->
  reachable s -> slotsApart s -> slotsApart (snd (exec op s)).
Proof.
  intros Hhg Hvg Hop Hnc Hreach [Hapart Hbehind].
  destruct (cursorSane_reachable s Hreach) as (_ & Hm & _).
  destruct (allSlots_exec op s Hnc)
    as [[Hperm Hc]|[[Heq (w & h & s1 & Hadv & Hc)]
       |(w & h & tw & th & f & d & u & o & s1 & -> & Hadv & Hc & Hperm)]].
  - split; [by apply (apart_Permutation (allSlots s))|].
    destruct Hbehind as [Hex|Hbehind]; [left; by apply (exhausted_cursor s)|].
    right. rewrite Hperm. eapply Forall_impl; [exact Hbehind|].
    intros r. by apply behindR_cursor.
  - split; [by rewrite Heq|]. left.
    apply (exhausted_cursor s1); [exact Hc|]. by eapply advance_none_exhausted.
  - destruct Hop as [Hw Hh].
    destruct Hbehind as [Hex|Hbehind].
    { rewrite (advance_exhausted w h s) in Hadv by assumption. discriminate. }
    destruct (advance_behindR w h s o s1 Hhg Hvg Hw Hh Hm Hadv) as [Hnew Hold].
    split.
    + apply (apart_Permutation ((o, w, h) :: allSlots s)); [by symmetry|].
      split; [|exact Hapart].
      eapply Forall_impl; [exact Hbehind|]. intros r Hr. by apply Hold.
    + right. rewrite Hperm. constructor.
      * by apply (behindR_cursor s1).
      * eapply Forall_impl; [exact Hbehind|]. intros r Hr.
        apply (behindR_cursor s1); [exact Hc|]. by apply Hold.
Qed.

(** In a run without [clear] the live records are pairwise non-overlapping,
    and so are they with the discarded regions. *)
Lemma live_records_do_not_overlap ops :
  0 <= HorizontalGap -> 0 <= VerticalGap ->
  Forall sizeOk ops -> forallb (fun op => negb (isClear op)) ops = true ->
  slotsApart (run ops construct) /\
  noOverlap (snd <$> textureInfos_ (run ops construct)).
Proof.
  intros Hhg Hvg Hok Hnc.
  assert (slotsApart (run ops construct)) as Hinv.
  { assert (Forall (fun op => sizeOk op /\ isClear op = false) ops) as Hall.
    { apply Forall_forall. intros op Hop. split.
      - rewrite Forall_forall in Hok. by apply Hok.
      - rewrite forallb_forall in Hnc. apply list_elem_of_In in Hop.
        apply Hnc in Hop. by destruct (isClear op). }
    clear Hok Hnc. revert ops Hall. apply run_inv.
    - split; [exact I|]. right. constructor.
    - intros op s [Hop Hnc] Hreach Hs. by apply slotsApart_exec. }
  split; [exact Hinv|].
  destruct Hinv as [Hapart _]. unfold allSlots in Hapart.
  apply apart_app in Hapart as (Hlive & _).
  apply noOverlap_apart. by rewrite <- liveRects_fmap.
Qed.



(** ** The tracked row height *)













(** ** The range of [int] *)

Lemma advance_bounded w h s r s' :
  smallConfig -> 0 <= w <= width_ cfg -> 0 <= h <= height_ cfg ->
  cursorBounded s ->
  getOffsetAndAdvance w h s = (r, s') ->
  cursorBounded s' /\ Forall intRange (advanceValues w h s).
Proof.
  unfold smallConfig, cursorBounded, advanceValues, intRange.
  intros Hcfg Hw Hh Hs. unfold_advance.
  zcases; intros [= <- <-]; simpl;
    (split; [lia | repeat constructor; lia]).
Qed.

Lemma cursorBounded_cursor s1 s2 :
  cursor s2 = cursor s1 -> cursorBounded s1 -> cursorBounded s2.
Proof. unfold cursorBounded. intros [= -> -> -> -> ->]. auto. Qed.

(** X5. For a small configuration and images that are not negative, the
    arithmetic of the packing advance stays within [int] in every state of
    a run: the model in [Z] computes what the source computes. *)
Lemma advance_within_int ops w h :
  smallConfig -> Forall sizeOk ops ->
  0 <= w <= width_ cfg -> 0 <= h <= height_ cfg ->
  cursorBounded (run ops construct) /\
  Forall intRange (advanceValues w h (run ops construct)).
Proof.
  intros Hcfg Hok Hw Hh.
  assert (cursorBounded (run ops construct)) as Hs.
  { revert ops Hok. apply run_inv.
    - unfold smallConfig in Hcfg. unfold cursorBounded. simpl. lia.
    - intros op s Hop _ Hs.
      destruct (exec_cursor op s)
        as [Hc|[(w' & h' & tw & th & f & d & u & -> & _ & Hfit & Hc)| ->]].
      + by apply (cursorBounded_cursor s).
      + destruct Hop as [Hw' Hh']. unfold oversized in Hfit.
        destruct (getOffsetAndAdvance w' h' s) as [r s1] eqn:Hadv.
        apply (cursorBounded_cursor s1); [exact Hc|].
        apply (advance_bounded w' h' s r s1); (assumption || lia).
      + unfold smallConfig in Hcfg. unfold cursorBounded. simpl. lia. }
  split; [exact Hs|].
  destruct (getOffsetAndAdvance w h (run ops construct)) as [r s1] eqn:Hadv.
  by apply (advance_bounded w h _ r s1).
Qed.


(** ** Releasing twice, releasing an unknown address *)

Lemma eraseNode_NoDup p (l : list (Ptr * TextureInfo.t)) :
  NoDup (fst <$> l) -> NoDup (fst <$> TextureAtlasAllocator.eraseNode p l).
Proof.
  induction l as [|n l IH]; simpl; [done|].
  intros [Hn Hl]%NoDup_cons. destruct (fst n =? p)%nat; [exact Hl|].
  simpl. apply NoDup_cons. split; [|by apply IH].
  intros (m & Hm & Hin)%list_elem_of_fmap. apply Hn.
  apply list_elem_of_fmap. exists m. split; [exact Hm|].
  by apply (eraseNode_subseteq p l).
Qed.

Lemma ptrsDistinct_reachable s : reachable s -> ptrsDistinct s.
Proof.
  intros Hreach. pose proof Hreach as Hfresh%ptrsFresh_reachable.
  revert s Hreach Hfresh.
  apply (reachable_inv (fun s => ptrsFresh s -> ptrsDistinct s)).
  - intros _. apply NoDup_nil_2.
  - intros op s Hreach IH _.
    pose proof (ptrsFresh_reachable s Hreach) as Hfresh. specialize (IH Hfresh).
    unfold ptrsDistinct in *.
    destruct op as [w h tw th f d u|p|]; simpl; [| |exact IH].
    + destruct (insert w h tw th f d u s) as [[node|] s'] eqn:Hins; simpl.
      * destruct (insert_some _ _ _ _ _ _ _ _ _ _ Hins) as (Hp & _ & _ & -> & _).
        rewrite fmap_app. apply NoDup_app. split; [exact IH|]. split.
        -- intros a (m & -> & Hm)%list_elem_of_fmap Ha. simpl in Ha.
           apply list_elem_of_singleton in Ha.
           unfold ptrsFresh in Hfresh. rewrite Forall_forall in Hfresh.
           specialize (Hfresh m Hm). lia.
        -- apply NoDup_singleton.
      * destruct (insert_none _ _ _ _ _ _ _ _ _ Hins) as (_ & [[_ ->]|[_ Hadv]]);
          [exact IH|].
        by destruct (advance_frame _ _ _ _ _ Hadv) as (_ & -> & _).
    + destruct (findNode p s) as [ti|] eqn:Hf;
        [|by rewrite (release_dead p s Hf)].
      destruct (release_live p s ti Hf) as (_ & _ & _ & -> & _).
      by apply eraseNode_NoDup.
Qed.

Lemma find_eraseNode_same p (l : list (Ptr * TextureInfo.t)) :
  NoDup (fst <$> l) ->
  find (fun n : Ptr * TextureInfo.t => (fst n =? p)%nat)
       (TextureAtlasAllocator.eraseNode p l) = None.
Proof.
  induction l as [|n l IH]; simpl; [done|].
  intros [Hn Hl]%NoDup_cons.
  destruct (Nat.eqb_spec (fst n) p) as [Hnp|Hnp].
  - destruct (find _ l) as [m|] eqn:Hfind; [|reflexivity].
    apply find_some in Hfind as [Hin Hm]. apply Nat.eqb_eq in Hm.
    exfalso. apply Hn. apply list_elem_of_fmap. exists m.
    split; [congruence | by apply list_elem_of_In].
  - simpl. destruct (Nat.eqb_spec (fst n) p); [contradiction | by apply IH].
Qed.

(** X7. A record that was released is no longer among the live records,
    and releasing it a second time changes nothing; releasing an address
    that no insert has handed out changes nothing either. *)
Theorem release_twice_is_release_once p s :
  reachable s ->
  findNode p (release p s) = None /\
  release p (release p s) = release p s /\
  ((nextPtr_ s <= p)%nat -> release p s = s).
Proof.
  intros Hreach.
  assert (findNode p (release p s) = None) as Hgone.
  { destruct (findNode p s) as [ti|] eqn:Hf;
      [|by rewrite (release_dead p s Hf)].
    destruct (release_live p s ti Hf) as (_ & _ & _ & Hti & _).
    unfold TextureAtlasAllocator.findNode. rewrite Hti.
    rewrite find_eraseNode_same; [reflexivity|].
    by apply ptrsDistinct_reachable. }
  split; [exact Hgone|]. split; [by apply release_dead|].
  intros Hp. apply release_dead.
  destruct (findNode p s) as [ti|] eqn:Hf; [|reflexivity].
  apply findNode_elem in Hf.
  pose proof (ptrsFresh_reachable s Hreach) as Hfresh.
  unfold ptrsFresh in Hfresh. rewrite Forall_forall in Hfresh.
  specialize (Hfresh _ Hf). simpl in Hfresh. lia.
Qed.


(** ** The free-map *)

Lemma noEmptyVector_reachable s : reachable s -> noEmptyVector s.
Proof.
  apply reachable_inv; clear s.
  - intros k l Hl. simpl in Hl. by rewrite lookup_empty in Hl.
  - intros op s _ IH. unfold noEmptyVector in *.
    destruct op as [w h tw th f d u|p|]; simpl.
    + destruct (insert w h tw th f d u s) as [[node|] s'] eqn:Hins; simpl.
      * destruct (freeSlot s w h) as [back|] eqn:Hslot.
        -- destruct (insert_hit w h tw th f d u s back Hslot)
             as (n & s1 & Heq & _ & _ & _ & _ & _ & _ & _ & _ & l & Hl & Hd).
           rewrite Hins in Heq. injection Heq as <- <-.
           rewrite Hd. intros k l' Hl'.
           destruct (decide ((w, h) = k)) as [<-|Hk].
           ++ destruct l as [|o l].
              ** by rewrite lookup_delete_eq in Hl'.
              ** rewrite lookup_insert_eq in Hl'. by injection Hl' as <-.
           ++ destruct l.
              ** rewrite lookup_delete_ne in Hl' by done. eauto.
              ** rewrite lookup_insert_ne in Hl' by done. eauto.
        -- destruct (insert_some _ _ _ _ _ _ _ _ _ _ Hins)
             as (_ & _ & _ & _ & _ & [(Hs & _)|(s1 & _ & _ & _ & _ & -> & _)]);
             [congruence | exact IH].
      * destruct (insert_none _ _ _ _ _ _ _ _ _ Hins) as (_ & [[_ ->]|[_ Hadv]]);
          [exact IH|].
        by destruct (advance_frame _ _ _ _ _ Hadv) as (-> & _).
    + destruct (findNode p s) as [ti|] eqn:Hf;
        [|by rewrite (release_dead p s Hf)].
      destruct (release_live p s ti Hf) as (_ & _ & _ & _ & ->).
      intros k l' Hl'.
      destruct (decide ((TextureInfo.width ti, TextureInfo.height ti) = k))
        as [<-|Hk].
      * rewrite lookup_insert_eq in Hl'. injection Hl' as <-.
        by destruct (default [] _).
      * rewrite lookup_insert_ne in Hl' by done. eauto.
    + intros k l Hl. by rewrite lookup_empty in Hl.
Qed.

(** X8. The free-map of a live allocator never files a size with an empty
    vector: [insert] erases the size when it takes its last offset, and
    [release] pushes before it stores.  So a size is offered a slot exactly
    when it has an entry, and the branch of [insert] for an entry with an
    empty vector is never taken. *)
Theorem free_map_has_no_empty_vector s :
  reachable s ->
  noEmptyVector s /\
  forall w h, freeSlot s w h = None <-> discarded_ s !! (w, h) = None.
Proof.
  intros Hreach.
  pose proof (noEmptyVector_reachable s Hreach) as Hne.
  split; [exact Hne|].
  intros w h. unfold freeSlot.
  destruct (discarded_ s !! (w, h)) as [l|] eqn:Hl; simpl; [|done].
  split; [|discriminate].
  intros Hlast%last_None. by apply Hne in Hl.
Qed.

(** X9. The free-list is matched by exact size only.  An insert of size
    (w, h) leaves the vectors of all other sizes as they are; when it
    succeeds without a slot of its own size it takes the placement of the
    packing advance and leaves the whole free-map as it is, whatever other
    sizes are on offer; a release touches the vector of the size of the
    released record only. *)
Theorem free_map_is_matched_by_exact_size w h tw th f d u s :
  (forall k, k <> (w, h) ->
             discarded_ (snd (insert w h tw th f d u s)) !! k = discarded_ s !! k) /\
  (freeSlot s w h = None ->
   discarded_ (snd (insert w h tw th f d u s)) = discarded_ s /\
   forall node s',
     insert w h tw th f d u s = (Some node, s') ->
     exists s1, getOffsetAndAdvance w h s = (Some (offsetOf (snd node)), s1)) /\
  (forall p ti k,
      findNode p s = Some ti ->
      k <> (TextureInfo.width ti, TextureInfo.height ti) ->
      discarded_ (release p s) !! k = discarded_ s !! k).
Proof.
  assert (freeSlot s w h = None ->
          discarded_ (snd (insert w h tw th f d u s)) = discarded_ s) as Hmiss.
  { intros Hslot.
    destruct (insert w h tw th f d u s) as [[node|] s'] eqn:Hins; simpl.
    - destruct (insert_some _ _ _ _ _ _ _ _ _ _ Hins)
        as (_ & _ & _ & _ & _ & [(Hs & _)|(s1 & _ & _ & _ & _ & Hd & _)]);
        [congruence | exact Hd].
    - destruct (insert_none _ _ _ _ _ _ _ _ _ Hins) as (_ & [[_ ->]|[_ Hadv]]);
        [reflexivity|].
      by destruct (advance_frame _ _ _ _ _ Hadv) as (Hd & _). }
  split; [|split].
  - intros k Hk.
    destruct (freeSlot s w h) as [back|] eqn:Hslot; [|by rewrite Hmiss].
    destruct (insert_hit w h tw th f d u s back Hslot)
      as (n & s1 & -> & _ & _ & _ & _ & _ & _ & _ & _ & l & _ & Hd).
    simpl. rewrite Hd.
    destruct l; [by rewrite lookup_delete_ne | by rewrite lookup_insert_ne].
  - intros Hslot. split; [by apply Hmiss|].
    intros node s' Hins.
    destruct (insert_some _ _ _ _ _ _ _ _ _ _ Hins)
      as (_ & _ & _ & _ & _ & [(Hs & _)|(s1 & _ & _ & Hadv & _)]);
      [congruence | eauto].
  - intros p ti k Hf Hk.
    destruct (release_live p s ti Hf) as (_ & _ & _ & _ & ->).
    by rewrite lookup_insert_ne.
Qed.


(** ** Uploads *)

Lemma uploadedInfos_app l1 l2 :
  uploadedInfos (l1 ++ l2) = uploadedInfos l1 ++ uploadedInfos l2.
Proof.
  induction l1 as [|[id|id|p ti d f] l1 IH]; simpl; [reflexivity|exact IH..|].
  by rewrite IH.
Qed.

(** X10. The backend is asked to upload exactly the records that insert
    returns, once each and in the order of the calls: after any run, the
    uploads of the log are the uploads that were there before followed by
    the records the run returned.  Releases, clears and failing inserts
    upload nothing. *)
Theorem uploads_are_the_records_returned ops s :
  uploadedInfos (atlasBackend_ (run ops s))
  = uploadedInfos (atlasBackend_ s) ++ placements ops s.
Proof.
  revert s. induction ops as [|op ops IH]; intros s; simpl.
  - by rewrite app_nil_r.
  - rewrite IH. destruct op as [w h tw th f d u|p|]; simpl.
    + pose proof (insert_log w h tw th f d u s) as Hlog.
      destruct (insert w h tw th f d u s) as [[node|] s']; simpl.
      * destruct Hlog as (pre & -> & [-> | ->]);
          rewrite !uploadedInfos_app; simpl;
          by rewrite ?app_nil_r, <- app_assoc.
      * by rewrite Hlog.
    + by destruct (release_frame p s) as (_ & -> & _).
    + reflexivity.
Qed.


(** ** Atlases are created before they are used *)

Lemma uploadsFollowCreation_mono cr cr' log :
  (forall id, id ∈ cr -> id ∈ cr') ->
  uploadsFollowCreation cr log -> uploadsFollowCreation cr' log.
Proof.
  revert cr cr'. induction log as [|[id|id|p ti d f] log IH]; intros cr cr' Hsub;
    simpl; [done|..].
  - apply IH. intros x [->|Hx]%elem_of_cons; [by left | right; by apply Hsub].
  - by apply IH.
  - intros [Hin Hlog]. split; [by apply Hsub | by eapply IH].
Qed.

Lemma uploadsFollowCreation_create cr log id :
  uploadsFollowCreation cr log -> uploadsFollowCreation cr (log ++ [CreateAtlas id]).
Proof.
  revert cr. induction log as [|[id'|id'|p ti d f] log IH]; intros cr; simpl;
    [done|by apply IH..|].
  intros [Hin Hlog]. split; [exact Hin | by apply IH].
Qed.

Lemma uploadsFollowCreation_upload cr log p ti d f :
  uploadsFollowCreation cr log ->
  TextureInfo.atlas ti ∈ cr \/ TextureInfo.atlas ti ∈ createdIds log ->
  uploadsFollowCreation cr (log ++ [UploadTexture p ti d f]).
Proof.
  revert cr. induction log as [|[id'|id'|p' ti' d' f'] log IH]; intros cr; simpl.
  - intros _ [Hin|Hin]; [done | by apply elem_of_nil in Hin].
  - intros Hlog Hin. apply IH; [exact Hlog|].
    destruct Hin as [Hin|[->|Hin]%elem_of_cons];
      [left; by right | left; by left | by right].
  - intros Hlog Hin. by apply IH.
  - intros [Hin' Hlog] Hin. split; [exact Hin' | by apply IH].
Qed.

Lemma slotsSatisfy_mono (Q Q' : Offset.t -> Z -> Z -> Prop) s :
  (forall o w h, Q o w h -> Q' o w h) -> slotsSatisfy Q s -> slotsSatisfy Q' s.
Proof.
  intros Himp [Hl Hd]. split.
  - eapply Forall_impl; [exact Hl|]. intros n. apply Himp.
  - intros w h l Hlook. eapply Forall_impl; [by apply Hd|]. intros o. apply Himp.
Qed.

(** X11. An atlas is created before it is used.  In every state of a live
    allocator the current instance, the instance of every live record and of
    every discarded offset are among the atlases the backend was asked to
    create, and in the log of the backend every upload comes after the
    creation of the atlas it goes to. *)
Theorem atlases_are_created_before_use s :
  reachable s ->
  let created := createdIds (atlasBackend_ s) in
  currentInstanceId_ s ∈ created /\
  slotsSatisfy (fun o _ _ => Offset.i o ∈ created) s /\
  uploadsFollowCreation [] (atlasBackend_ s).
Proof.
  intros Hreach. simpl.
  cut (instanceBaseId_ cfg ∈ createdIds (atlasBackend_ s) /\
       currentInstanceId_ s ∈ createdIds (atlasBackend_ s) /\
       slotsSatisfy (fun o _ _ => Offset.i o ∈ createdIds (atlasBackend_ s)) s /\
       uploadsFollowCreation [] (atlasBackend_ s)); [tauto|].
  revert s Hreach. apply reachable_inv.
  - simpl. repeat split; try (by left). apply slotsSatisfy_construct.
  - intros op s _ (Hbase & Hcur & Hslots & Hlog).
    assert (forall id, id ∈ createdIds (atlasBackend_ s) ->
                       id ∈ createdIds (atlasBackend_ (snd (exec op s)))) as Hgrow.
    { intros id Hid. destruct (exec_createdIds op s) as [[-> _]|(-> & _)];
        [exact Hid | apply elem_of_app; by left]. }
    assert (currentInstanceId_ (snd (exec op s))
              ∈ createdIds (atlasBackend_ (snd (exec op s)))) as Hcur'.
    { destruct (exec_createdIds op s) as [[-> [-> | ->]]|(-> & -> & _)];
        [exact Hcur | exact Hbase|].
      apply elem_of_app. right. by apply list_elem_of_singleton. }
    assert (slotsSatisfy
              (fun o _ _ => Offset.i o ∈ createdIds (atlasBackend_ (snd (exec op s))))
              (snd (exec op s))) as Hslots'.
    { apply slotsSatisfy_exec.
      - destruct op as [w h tw th f d u|p|]; [|exact I..].
        intros o s1 Hslot Hfit Hadv.
        destruct (advance_some _ _ _ _ _ Hadv) as (-> & _).
        revert Hcur'. simpl. rewrite (insert_miss _ _ _ _ _ _ _ _ Hslot).
        unfold oversized in Hfit.
        rewrite (insertFresh_placed w h tw th f d u s o s1) by (lia || exact Hadv).
        done.
      - eapply slotsSatisfy_mono; [|exact Hslots]. intros o w0 h0. apply Hgrow. }
    repeat split; [by apply Hgrow | exact Hcur' | apply Hslots'..|].
    destruct op as [w h tw th f d u|p|]; simpl in *.
    + pose proof (insert_log w h tw th f d u s) as Hlog'.
      destruct (insert w h tw th f d u s) as [[node|] s'] eqn:Hins; simpl in *.
      * destruct (insert_some _ _ _ _ _ _ _ _ _ _ Hins) as (_ & _ & _ & Hti & _).
        destruct Hslots' as [Hlive _]. rewrite Hti in Hlive.
        apply Forall_app in Hlive as [_ Hnode]. apply Forall_inv in Hnode.
        simpl in Hnode.
        destruct Hlog' as (pre & Heq & Hpre). rewrite Heq in Hnode |- *.
        rewrite app_assoc in Hnode |- *. rewrite createdIds_app in Hnode.
        simpl in Hnode. rewrite app_nil_r in Hnode.
        apply uploadsFollowCreation_upload; [|by right].
        destruct Hpre as [-> | ->];
          [by rewrite app_nil_r | by apply uploadsFollowCreation_create].
      * by rewrite Hlog'.
    + by destruct (release_frame p s) as (_ & -> & _).
    + exact Hlog.
Qed.


(** ** Reuse after exhaustion *)

(** X12. An exhausted allocator still serves exact-size reuse.  After the
    release of a live record, an insert of the size of that record succeeds
    at the offset of the record, sends the backend the upload and no atlas
    creation, and leaves the allocator exhausted; an insert of a size with no
    free slot still fails and changes nothing. *)
Theorem exhausted_allocator_reuses_released_slot
        p ti tw th f d u s :
  0 <= HorizontalGap -> 0 <= VerticalGap ->
  exhausted s ->
  findNode p s = Some ti ->
  (exists node s',
      insert (TextureInfo.width ti) (TextureInfo.height ti) tw th f d u
             (release p s) = (Some node, s') /\
      offsetOf (snd node) = offsetOf ti /\
      atlasBackend_ s' =
        atlasBackend_ s ++ [UploadTexture (fst node) (snd node) d f] /\
      exhausted s') /\
  (forall w h tw' th' f' d' u',
      0 <= w -> 0 <= h -> freeSlot (release p s) w h = None ->
      insert w h tw' th' f' d' u' (release p s) = (None, release p s)).
Proof.
  intros Hhg Hvg Hex Hf.
  destruct (release_frame p s) as (Hc & Hlog & _).
  assert (exhausted (release p s)) as Hex' by (by apply (exhausted_cursor s)).
  split.
  - destruct (insert_hit _ _ tw th f d u _ _ (freeSlot_release p s ti Hf))
      as (node & s' & Hins & Hoff & _ & _ & _ & Hc' & _ & _ & Hlog' & _).
    exists node, s'. repeat split; [exact Hins | exact Hoff | congruence|..];
      by apply (exhausted_cursor (release p s)).
  - intros w h tw' th' f' d' u' Hw Hh Hslot. by apply insert_exhausted.
Qed.

(** ** What [clear] forgets *)

(** X14. [clear] gives the space of the live records away.  Whatever the
    state, the first insert after [clear] of an image that fits the first
    row is placed at the origin of layer 0 of the base instance, creates no
    atlas, and is appended to the live records that were there before
    [clear], which [clear] kept. *)
Theorem insert_after_clear_starts_at_origin w h tw th f d u s :
  w <= width_ cfg -> h <= height_ cfg ->
  0 + HorizontalGap + w < width_ cfg ->
  exists node s',
    insert w h tw th f d u (clear s) = (Some node, s') /\
    offsetOf (snd node) = Offset.mk (instanceBaseId_ cfg) 0 0 0 /\
    textureInfos_ s' = textureInfos_ s ++ [node] /\
    atlasBackend_ s' =
      atlasBackend_ s ++ [UploadTexture (fst node) (snd node) d f].
Proof.
  intros Hw Hh Hx.
  assert (freeSlot (clear s) w h = None) as Hslot by reflexivity.
  rewrite (insert_miss _ _ _ _ _ _ _ _ Hslot).
  erewrite insertFresh_placed;
    [ | exact Hw | exact Hh | rewrite advance_in_row by exact Hx; reflexivity ].
  eexists _, _. split; [reflexivity|]. repeat split.
Qed.

(** ** The instances the backend is asked for *)

(** X15. The backend is only ever asked to create atlases of the configured
    range: every instance id of a createAtlas command lies in
    [baseInstanceId, baseInstanceId + maxInstances), whatever the calls,
    [clear] included. *)
Theorem created_atlases_are_in_range s :
  1 <= maxInstances_ cfg ->
  reachable s ->
  forall id, id ∈ createdIds (atlasBackend_ s) -> instanceInRange id.
Proof.
  intros Hmax. revert s.
  apply (reachable_inv
           (fun s => forall id, id ∈ createdIds (atlasBackend_ s) -> instanceInRange id)).
  - simpl. intros id ->%list_elem_of_singleton. unfold instanceInRange. lia.
  - intros op s Hreach IH id.
    destruct (cursorSane_reachable s Hreach) as (Hbase & _).
    destruct (exec_createdIds op s) as [[-> _]|(-> & _ & Hi)]; [by apply IH|].
    intros [Hid| ->%list_elem_of_singleton]%elem_of_app; [by apply IH|].
    unfold instanceInRange. lia.
Qed.


(** ** The cursor only moves forward *)

Lemma cursorInPage_run ops :
  0 <= HorizontalGap -> 0 <= VerticalGap -> 1 <= depth_ cfg ->
  Forall sizeOk ops -> cursorInPage (run ops construct).
Proof.
  intros Hhg Hvg Hdepth. revert ops. apply run_inv.
  - unfold cursorInPage; simpl. split; [lia|]. right. lia.
  - intros op s Hop _ Hcur.
    destruct (exec_cursor op s)
      as [Hc|[(w & h & tw & th & f & d & u & -> & _ & Hfit & Hc)| ->]].
    + by apply (cursorInPage_cursor s).
    + destruct Hop as [Hw Hh]. unfold oversized in Hfit.
      destruct (getOffsetAndAdvance w h s) as [r s1] eqn:Hadv.
      apply (cursorInPage_cursor s1); [exact Hc|].
      apply (advance_inPage w h s r s1); (assumption || lia).
    + unfold cursorInPage; simpl. split; [lia|]. right. lia.
Qed.

Lemma cursorNotBefore_cursor s s1 s2 :
  cursor s2 = cursor s1 -> cursorNotBefore s s1 -> cursorNotBefore s s2.
Proof. unfold cursorNotBefore. intros [= -> -> _ -> _]. auto. Qed.

Lemma advance_notBefore w h s r s' :
  0 <= HorizontalGap -> 0 <= VerticalGap -> 0 <= w -> 0 <= h ->
  cursorInPage s ->
  getOffsetAndAdvance w h s = (r, s') -> cursorNotBefore s s'.
Proof.
  intros Hhg Hvg Hw Hh [Hm Hcur] Hadv. unfold cursorNotBefore.
  destruct Hcur as [Hex|Hcur].
  { rewrite (advance_exhausted w h s) in Hadv by assumption.
    injection Hadv as _ <-. lia. }
  destruct r as [o|].
  - destruct (advance_cases _ _ _ _ _ Hadv)
      as [(_ & _ & Hc)|[(_ & _ & _ & Hc)|[(_ & _ & _ & _ & Hc)
         |(_ & _ & _ & _ & _ & Hc)]]];
      injection Hc as -> -> _ -> _; lia.
  - destruct (advance_none _ _ _ _ Hadv) as (Hc & _).
    injection Hc as -> -> _ -> _. lia.
Qed.

(** X13. The packing cursor only moves forward.  Over any calls other than
    [clear], the triple (current instance, current layer, current row
    origin y) never decreases in lexicographic order: space the cursor has
    passed is only handed out again through the free-list. *)
Theorem cursor_never_moves_back before ops :
  0 <= HorizontalGap -> 0 <= VerticalGap -> 1 <= depth_ cfg ->
  Forall sizeOk before -> Forall sizeOk ops ->
  forallb (fun op => negb (isClear op)) ops = true ->
  cursorNotBefore (run before construct) (run ops (run before construct)).
Proof.
  intros Hhg Hvg Hdepth Hok0 Hok Hnc.
  induction ops as [|op ops IH] using rev_ind.
  - unfold cursorNotBefore. simpl. lia.
  - apply Forall_app in Hok as [Hok Hop]. apply Forall_inv in Hop.
    rewrite forallb_app in Hnc. apply andb_true_iff in Hnc as [Hnc Hop'].
    simpl in Hop'. rewrite andb_true_r in Hop'.
    specialize (IH Hok Hnc).
    assert (cursorInPage (run ops (run before construct))) as Hcur.
    { rewrite <- run_app. apply cursorInPage_run; try assumption.
      by apply Forall_app. }
    rewrite run_app. simpl.
    set (s := run ops (run before construct)) in *.
    assert (cursorNotBefore s (snd (exec op s))) as Hstep.
    { destruct (exec_cursor op s)
        as [Hc|[(w & h & tw & th & f & d & u & -> & _ & _ & Hc)| ->]];
        [| |discriminate].
      - apply (cursorNotBefore_cursor s s); [exact Hc|].
        unfold cursorNotBefore. lia.
      - destruct Hop as [Hw Hh].
        destruct (getOffsetAndAdvance w h s) as [r s1] eqn:Hadv.
        apply (cursorNotBefore_cursor s s1); [exact Hc|].
        by apply (advance_notBefore w h s r s1). }
    revert IH Hstep. unfold cursorNotBefore. lia.
Qed.


(** ** Discarded regions *)

Lemma elem_of_freeRects (m : gmap (Z * Z) (list Offset.t)) o w h l :
  m !! (w, h) = Some l -> o ∈ l -> ((o, w, h) : Rect) ∈ freeRects m.
Proof.
  intros Hl Ho. unfold freeRects. apply list_elem_of_bind.
  exists ((w, h), l). split.
  - simpl. apply list_elem_of_fmap. by exists o.
  - by apply elem_of_map_to_list.
Qed.

(** X6. In a run without [clear], no discarded region overlaps a live
    record, and no two discarded regions overlap: a region of the free-list
    is free, so the record that reuses it lands on nothing that is live. *)
Theorem discarded_regions_do_not_overlap_live_records ops :
  0 <= HorizontalGap -> 0 <= VerticalGap ->
  Forall sizeOk ops -> forallb (fun op => negb (isClear op)) ops = true ->
  let s := run ops construct in
  (forall n w h l o,
      n ∈ textureInfos_ s -> discarded_ s !! (w, h) = Some l -> o ∈ l ->
      ~ overlapR (rectOf (snd n)) (o, w, h)) /\
  apart (freeRects (discarded_ s)).
Proof.
  intros Hhg Hvg Hok Hnc s.
  destruct (live_records_do_not_overlap ops Hhg Hvg Hok Hnc) as [[Hapart _] _].
  fold s in Hapart. unfold allSlots in Hapart.
  apply apart_app in Hapart as (_ & Hfree & Hcross).
  split; [|exact Hfree].
  intros n w h l o Hn Hl Ho.
  rewrite Forall_forall in Hcross.
  specialize (Hcross (rectOf (snd n))).
  rewrite Forall_forall in Hcross. apply Hcross.
  - apply list_elem_of_fmap. by exists n.
  - by apply (elem_of_freeRects _ o w h l).
Qed.


(** ** Release and reinsert *)

(** Erasing the node found at an address takes exactly that node out of the
    list: the nodes before it and after it stay, in their order, and none of
    them has the address. *)
Lemma eraseNode_split (p : Ptr) ti (l : list (Ptr * TextureInfo.t)) :
  snd <$> find (fun n : Ptr * TextureInfo.t => (fst n =? p)%nat) l = Some ti ->
  NoDup (fst <$> l) ->
  exists front rest,
    l = front ++ (p, ti) :: rest /\
    TextureAtlasAllocator.eraseNode p l = front ++ rest /\
    p ∉ fst <$> (front ++ rest).
Proof.
  induction l as [|n l IH]; simpl; [discriminate|].
  intros Hf [Hn Hl]%NoDup_cons.
  destruct (Nat.eqb_spec (fst n) p) as [Hnp|Hnp].
  - simpl in Hf. injection Hf as Hti. exists [], l. simpl.
    split; [f_equal; destruct n; simpl in *; by subst|].
    split; [reflexivity | by rewrite <- Hnp].
  - destruct (IH Hf Hl) as (front & rest & -> & Her & Hnot).
    exists (n :: front), rest. simpl. rewrite Her.
    split; [reflexivity|]. split; [reflexivity|].
    intros [Heq|Hin]%elem_of_cons; [by apply Hnp | by apply Hnot].
Qed.

(** X17. Releasing a live record and inserting its size again is a round
    trip for the allocator: the new record lands at the offset of the old
    one, and the free-map and the cursor are exactly what they were before
    the release.  Of the live records exactly the released one is gone: the
    records before it and after it stay in their order, none of them has
    the released address, and the new record is appended at the end. *)
Theorem release_then_insert_restores_free_map p ti tw th f d u s :
  reachable s ->
  findNode p s = Some ti ->
  exists node s',
    insert (TextureInfo.width ti) (TextureInfo.height ti) tw th f d u
           (release p s) = (Some node, s') /\
    offsetOf (snd node) = offsetOf ti /\
    discarded_ s' = discarded_ s /\
    cursor s' = cursor s /\
    exists front rest,
      textureInfos_ s = front ++ (p, ti) :: rest /\
      textureInfos_ s' = front ++ rest ++ [node] /\
      p ∉ fst <$> (front ++ rest).
Proof.
  intros Hreach Hf.
  pose proof (noEmptyVector_reachable s Hreach) as Hne.
  destruct (release_live p s ti Hf) as (Hc & _ & _ & Hti & Hd).
  destruct (insert_hit _ _ tw th f d u _ _ (freeSlot_release p s ti Hf))
    as (node & s' & Hins & Hoff & _ & _ & _ & Hc' & Hti' & _ & _ & l & Hl & Hd').
  exists node, s'.
  split; [exact Hins|]. split; [exact Hoff|].
  split; [|split; [congruence|]]; cycle 1.
  { destruct (eraseNode_split p ti (textureInfos_ s) Hf
                (ptrsDistinct_reachable s Hreach))
      as (front & rest & Hs & Her & Hnot).
    exists front, rest. split; [exact Hs|]. split; [|exact Hnot].
    by rewrite Hti', Hti, Her, <- app_assoc. }
  set (k := (TextureInfo.width ti, TextureInfo.height ti)) in *.
  rewrite Hd, lookup_insert_eq in Hl. injection Hl as Hl.
  apply app_inj_tail in Hl as [Hl _]. rewrite Hd', Hd.
  destruct (discarded_ s !! k) as [l0|] eqn:Hk; simpl in Hl; subst l.
  - destruct l0 as [|o l0]; [by apply Hne in Hk|].
    by rewrite insert_insert_eq, insert_id.
  - by rewrite delete_insert_eq, delete_id.
Qed.

(** ** The record built for a request *)

(** X16. The record a successful insert returns describes the request: it
    carries the width, height, target width, target height and user tag of
    the call and the name of the allocator, and its normalized coordinates
    are its offset and size over the page width and height.  This holds on
    both paths of insert, reuse and packing advance. *)
Theorem inserted_record_describes_request w h tw th f d u s node s' :
  insert w h tw th f d u s = (Some node, s') ->
  snd node =
    TextureInfo.mk (TextureInfo.atlas (snd node)) (name_ cfg)
                   (TextureInfo.x (snd node)) (TextureInfo.y (snd node))
                   (TextureInfo.z (snd node))
                   w h tw th
                   (TextureInfo.x (snd node), width_ cfg)
                   (TextureInfo.y (snd node), height_ cfg)
                   (w, width_ cfg) (h, height_ cfg) u.
Proof.
  unfold TextureAtlasAllocator.insert, TextureAtlasAllocator.insertFresh.
  destruct (discarded_ s !! (w, h)) as [l|]; [destruct (last l) as [back|]|];
    try (intros [= <- <-]; reflexivity);
    (destruct (_ || _); [discriminate|]);
    (destruct (getOffsetAndAdvance w h s) as [[o|] s1]; [|discriminate]);
    intros [= <- <-]; reflexivity.
Qed.

(** ** Neighbours *)

(** X18. Neighbouring placements are exactly one gap apart.  When the
    advance places an image and then places the next one in the same row,
    the second starts where the first ends plus the horizontal gap, in the
    same row, layer and instance; when the next one opens a new row of the
    layer instead, it starts at x = 0, below the row by the tracked height
    plus the vertical gap. *)
Theorem adjacent_placements_are_one_gap_apart w1 h1 w2 h2 s o1 s1 :
  getOffsetAndAdvance w1 h1 s = (Some o1, s1) ->
  (currentX_ s1 + HorizontalGap + w2 < width_ cfg ->
   exists s2,
     getOffsetAndAdvance w2 h2 s1
     = (Some (Offset.mk (Offset.i o1) (Offset.x o1 + (w1 + HorizontalGap))
                        (Offset.y o1) (Offset.z o1)), s2)) /\
  (~ currentX_ s1 + HorizontalGap + w2 < width_ cfg ->
   currentY_ s1 + maxTextureHeightInCurrentRow_ s1 + VerticalGap + h2 < height_ cfg ->
   exists s2,
     getOffsetAndAdvance w2 h2 s1
     = (Some (Offset.mk (Offset.i o1) 0
                        (Offset.y o1 + (maxTextureHeightInCurrentRow_ s1 + VerticalGap))
                        (Offset.z o1)), s2)).
Proof.
  intros Hadv.
  destruct (advance_some _ _ _ _ _ Hadv) as (Hi & Hz & Hy & Hx & _).
  split.
  - intros Hfit. rewrite advance_in_row by exact Hfit.
    eexists. unfold TextureAtlasAllocator.place, TextureAtlasAllocator.offset.
    by rewrite Hi, Hz, Hy, Hx.
  - intros Hfit Hrow. rewrite advance_new_row by assumption.
    eexists. unfold TextureAtlasAllocator.place, TextureAtlasAllocator.offset.
    simpl. by rewrite Hi, Hz, Hy.
Qed.

(** ** When insert fails *)

(** X19. Insert fails in two situations only.  It returns no record exactly
    when the free-map offers no slot of the size and either the image is
    larger than a page, or the image does not fit the current row, nor a new
    row, and there is neither a next layer nor a next instance. *)
Theorem insert_fails_iff w h tw th f d u s :
  fst (insert w h tw th f d u s) = None <->
  freeSlot s w h = None /\
  (oversized w h \/
   ~ currentX_ s + HorizontalGap + w < width_ cfg /\
   ~ currentY_ s + maxTextureHeightInCurrentRow_ s + VerticalGap + h < height_ cfg /\
   ~ currentZ_ s + 1 < depth_ cfg /\
   ~ currentInstanceId_ s + 1 < instanceBaseId_ cfg + maxInstances_ cfg).
Proof.
  split.
  - destruct (insert w h tw th f d u s) as [[node|] s'] eqn:Hins; [discriminate|].
    intros _.
    destruct (insert_none _ _ _ _ _ _ _ _ _ Hins) as (Hslot & [[Hbig _]|[_ Hadv]]);
      [auto|].
    destruct (advance_none _ _ _ _ Hadv) as (_ & _ & ? & ? & ? & ?). auto 10.
  - intros [Hslot Hwhy]. rewrite (insert_miss _ _ _ _ _ _ _ _ Hslot).
    unfold TextureAtlasAllocator.insertFresh.
    destruct (_ || _) eqn:Hbig; [reflexivity|].
    destruct Hwhy as [Hover|(Hx & Hy & Hz & Hi)].
    + apply oversized_test in Hover. congruence.
    + destruct (advance_fails w h s Hx Hy Hz Hi) as [s1 ->]. reflexivity.
Qed.

(** X20. The comparisons of the advance are strict, so an image as large as
    the page never fits a row or a page that is in use: on an atlas of one
    layer and one instance, an insert of the page size fails in every state,
    unless the free-map holds a slot of that size. *)
Theorem page_sized_image_never_fits_single_page ops tw th f d u :
  0 <= HorizontalGap -> 0 <= VerticalGap ->
  depth_ cfg = 1 -> maxInstances_ cfg = 1 ->
  0 <= width_ cfg -> 0 <= height_ cfg ->
  Forall sizeOk ops ->
  let s := run ops construct in
  freeSlot s (width_ cfg) (height_ cfg) = None ->
  fst (insert (width_ cfg) (height_ cfg) tw th f d u s) = None.
Proof.
  intros Hhg Hvg Hdepth Hmax Hw Hh Hok s Hslot.
  assert (reachable s) as Hreach by (by eexists).
  destruct (cursorSane_reachable s Hreach) as (Hbase & _ & Hz).
  destruct (cursorInPage_run ops Hhg Hvg) as [Hm Hcur]; [lia | exact Hok|].
  fold s in Hm, Hcur.
  destruct Hcur as [Hex|(Hx & Hy & _)].
  - by rewrite insert_exhausted.
  - rewrite (insert_miss _ _ _ _ _ _ _ _ Hslot).
    unfold TextureAtlasAllocator.insertFresh.
    destruct (_ || _); [reflexivity|].
    destruct (advance_fails (width_ cfg) (height_ cfg) s) as [s1 ->];
      [lia..|reflexivity].
Qed.


End Properties.

(** ** Concrete runs *)

Lemma insert_release_insert_reuses_offset_witness :
  let s := TextureAtlasAllocator.construct page10 in
  reachable 0 0 page10 s /\
  exists node s1,
    TextureAtlasAllocator.insert 0 0 page10 3 3 3 3 0%N [] 7 s = (Some node, s1) /\
    exists node' s3,
      TextureAtlasAllocator.insert 0 0 page10 3 3 6 6 0%N [] 8
        (TextureAtlasAllocator.release (fst node) s1) = (Some node', s3) /\
      offsetOf (snd node') = offsetOf (snd node) /\
      freeSlot (TextureAtlasAllocator.release (fst node) s1) 3 3
        = Some (offsetOf (snd node)) /\
      cursor s3 = cursor (TextureAtlasAllocator.release (fst node) s1) /\
      cursor s3 = cursor s1.
Proof.
  split; [exists []; reflexivity|].
  eexists _, _. split; [reflexivity|].
  apply (insert_release_insert_reuses_offset 0 0 page10 3 3 3 3 0%N [] 7 6 6 0%N [] 8
           (TextureAtlasAllocator.construct page10)).
  - exists []; reflexivity.
  - reflexivity.
Defined.

Lemma insert_oversized_rejected_witness :
  let s := TextureAtlasAllocator.construct page4 in
  reachable 0 0 page4 s /\ (5 > width_ page4 \/ 1 > height_ page4) /\
  TextureAtlasAllocator.insert 0 0 page4 5 1 5 1 0%N [] 0 s = (None, s).
Proof.
  split; [exists []; reflexivity|]. split; [left; reflexivity|].
  apply (insert_oversized_rejected 0 0 page4 5 1 5 1 0%N [] 0).
  - exists []; reflexivity.
  - left; reflexivity.
Defined.

(** A full-page image on a single-instance atlas: the insert fails and the
    cursor has moved from the origin to the sentinel position. *)
Lemma failing_insert_moves_cursor :
  let s := TextureAtlasAllocator.construct page4 in
  let r := TextureAtlasAllocator.insert 0 0 page4 4 4 4 4 0%N [] 0 s in
  fst r = None /\ cursor s = (0, 0, 0, 0, 0) /\ cursor (snd r) = (0, 1, 4, 4, 0) /\
  cursor (snd r) <> cursor s.
Proof. vm_compute. repeat split; discriminate. Qed.

(** A page-wide image is placed at x = 0 after a row wrap although
    x + gap + width < page width does not hold there. *)
Lemma wrapped_placement_misses_row_fit :
  let s := TextureAtlasAllocator.construct page4 in
  exists s',
    TextureAtlasAllocator.getOffsetAndAdvance 0 0 page4 4 1 s
      = (Some (Offset.mk 0 0 0 0), s') /\
    ~ (0 + 0 + 4 < width_ page4).
Proof. eexists. split; [reflexivity | vm_compute; discriminate]. Qed.

Lemma advance_places_in_row_or_at_row_start_witness :
  let s := TextureAtlasAllocator.construct page4 in
  exists s',
    TextureAtlasAllocator.getOffsetAndAdvance 0 0 page4 4 1 s
      = (Some (Offset.mk 0 0 0 0), s') /\
    (0 = currentX_ s /\ 0 + 0 + 4 < width_ page4
     \/
     0 = 0 /\ ~ currentX_ s + 0 + 4 < width_ page4) /\
    (0 <= 0 -> 4 <= width_ page4 -> 0 + 4 <= width_ page4).
Proof.
  eexists. split; [reflexivity|].
  eapply (advance_places_in_row_or_at_row_start 0 0 page4 4 1
            (TextureAtlasAllocator.construct page4) (Offset.mk 0 0 0 0)).
  reflexivity.
Defined.

(** C3 at a run with [clear]. A full-page image on a two-instance atlas
    makes the allocator create instance 1; [clear] sets the current instance
    back to 0; the destructor then destroys instance 0 alone, and instance 1,
    which was created, is never destroyed. *)
Theorem destroy_after_clear_misses_instance :
  let s := run 0 0 pages4 [OpInsert 4 4 4 4 0%N [] 0; OpClear]
               (TextureAtlasAllocator.construct pages4) in
  createdIds (atlasBackend_ s) = [0; 1] /\
  destroyedIds (atlasBackend_ (TextureAtlasAllocator.destruct_ pages4 s)) = [0].
Proof. vm_compute. split; reflexivity. Qed.


Lemma single_page_exhaustion_witness :
  let s := TextureAtlasAllocator.construct page4 in
  (depth_ page4 = 1 /\ maxInstances_ page4 = 1 /\ reachable 0 0 page4 s /\
   freeSlot s 4 4 = None /\ 4 <= width_ page4 /\ 4 <= height_ page4 /\
   ~ currentX_ s + 0 + 4 < width_ page4 /\
   ~ currentY_ s + maxTextureHeightInCurrentRow_ s + 0 + 4 < height_ page4) /\
  exists s1,
    TextureAtlasAllocator.insert 0 0 page4 4 4 4 4 0%N [] 0 s = (None, s1) /\
    atlasBackend_ s1 = atlasBackend_ s /\
    createdIds (atlasBackend_ s1) = [instanceBaseId_ page4] /\
    cursorFull page4 s1 /\
    forall ops,
      Forall sizeOk ops -> forallb (fun op => negb (isClear op)) ops = true ->
      cursorFull page4 (run 0 0 page4 ops s1) /\
      createdIds (atlasBackend_ (run 0 0 page4 ops s1)) = [instanceBaseId_ page4] /\
      forall w' h' tw' th' f' d' u',
        0 <= w' -> 0 <= h' -> freeSlot (run 0 0 page4 ops s1) w' h' = None ->
        TextureAtlasAllocator.insert 0 0 page4 w' h' tw' th' f' d' u'
                                     (run 0 0 page4 ops s1)
        = (None, run 0 0 page4 ops s1).
Proof.
  assert (reachable 0 0 page4 (TextureAtlasAllocator.construct page4)) as Hreach
      by (exists []; reflexivity).
  split.
  - repeat split; try reflexivity; try exact Hreach; simpl; lia.
  - apply (single_page_exhaustion 0 0 page4 4 4 4 4 0%N [] 0
             (TextureAtlasAllocator.construct page4));
      try reflexivity; try exact Hreach; simpl; lia.
Defined.

Lemma instance_id_in_range_witness :
  let s := TextureAtlasAllocator.construct pages4 in
  (1 <= maxInstances_ pages4 /\ reachable 0 0 pages4 s) /\
  instanceInRange pages4 (currentInstanceId_ s) /\
  (forall n, n ∈ textureInfos_ s -> instanceInRange pages4 (TextureInfo.atlas (snd n))) /\
  (forall op node s',
      exec 0 0 pages4 op s = (Some node, s') ->
      instanceInRange pages4 (TextureInfo.atlas (snd node))).
Proof.
  assert (reachable 0 0 pages4 (TextureAtlasAllocator.construct pages4)) as Hreach
      by (exists []; reflexivity).
  split; [split; [simpl; lia | exact Hreach]|].
  apply (instance_id_in_range 0 0 pages4 (TextureAtlasAllocator.construct pages4));
    [simpl; lia | exact Hreach].
Defined.


(** The second row of [tallThenFlat] holds one image of height 1, yet the
    third row starts 3 pixels below it: the height of the tall image of the
    first row still counts. *)
Lemma row_advance_uses_height_of_earlier_row :
  let s := TextureAtlasAllocator.construct page10 in
  (fun t => (TextureInfo.x t, TextureInfo.y t, TextureInfo.height t))
    <$> placements 0 0 page10 (tallThenFlat ++ [OpInsert 9 1 9 1 0%N [] 2]) s
  = [(0, 0, 3); (0, 3, 1); (0, 6, 1)].
Proof. vm_compute. reflexivity. Qed.

(** C2 at a run that places in the current row. The third image of
    [threeImages] is placed at x = 5, y = 1 with height 10 on a page of
    height 10: it ends at y = 11, below the page. *)
Theorem row_placement_exceeds_page_height :
  let s := TextureAtlasAllocator.construct page10 in
  (fun t => (offsetOf t, TextureInfo.width t, TextureInfo.height t))
    <$> placements 0 0 page10 threeImages s
  = [(Offset.mk 0 0 0 0, 5, 1); (Offset.mk 0 0 1 0, 5, 1); (Offset.mk 0 5 1 0, 1, 10)] /\
  exists t,
    placements 0 0 page10 threeImages s !! 2%nat = Some t /\
    TextureInfo.y t + TextureInfo.height t = 11 /\
    height_ page10 = 10 /\
    ~ withinPage page10 t.
Proof.
  vm_compute. split; [reflexivity|].
  eexists. split; [reflexivity|]. vm_compute.
  split; [reflexivity|]. split; [reflexivity|].
  intros (_ & Hy & _). apply Hy. reflexivity.
Qed.

(** [clear] resets the cursor and keeps the live records: the image
    inserted after [clear] is placed on the image inserted before it.  This
    is why the statements about runs above exclude [clear]. *)
Lemma insert_after_clear_overlaps :
  exists a b,
    placements 0 0 page10
      [OpInsert 3 3 3 3 0%N [] 0; OpClear; OpInsert 3 3 3 3 0%N [] 1]
      (TextureAtlasAllocator.construct page10) = [a; b] /\
    offsetOf a = Offset.mk 0 0 0 0 /\ offsetOf b = Offset.mk 0 0 0 0 /\
    overlap a b.
Proof.
  eexists _, _. split; [vm_compute; reflexivity|].
  vm_compute. repeat split.
Qed.



(** ** The same runs for any gaps

    The runs above take both gaps as 0.  The lemmas below replay them for
    every pair of non-negative gaps. *)

Lemma failing_insert_moves_cursor_any_gap hg vg :
  0 <= hg -> 0 <= vg ->
  let s := TextureAtlasAllocator.construct page4 in
  let r := TextureAtlasAllocator.insert hg vg page4 4 4 4 4 0%N [] 0 s in
  fst r = None /\ cursor s = (0, 0, 0, 0, 0) /\ cursor (snd r) = (0, 1, 4, 4, 0).
Proof.
  intros Hhg Hvg s r. subst s r.
  rewrite insert_miss by reflexivity.
  erewrite insertFresh_failed;
    [ | simpl; lia | simpl; lia | apply advance_exhausts; simpl; lia ].
  repeat split.
Qed.

Lemma wrapped_placement_misses_row_fit_any_gap hg vg :
  0 <= hg -> 0 <= vg ->
  let cfg := mkConfig 0 1 1 4 (vg + 2) 0%N "glyphs" in
  fst (TextureAtlasAllocator.getOffsetAndAdvance hg vg cfg 4 1
         (TextureAtlasAllocator.construct cfg))
  = Some (Offset.mk 0 0 (0 + (0 + vg)) 0) /\
  ~ (0 + hg + 4 < width_ cfg).
Proof.
  intros Hhg Hvg cfg. subst cfg.
  rewrite advance_new_row by (simpl; lia).
  split; [reflexivity | simpl; lia].
Qed.

Lemma destroy_after_clear_misses_instance_any_gap hg vg :
  0 <= hg -> 0 <= vg ->
  let s := run hg vg pages4 [OpInsert 4 4 4 4 0%N [] 0; OpClear]
               (TextureAtlasAllocator.construct pages4) in
  createdIds (atlasBackend_ s) = [0; 1] /\
  destroyedIds (atlasBackend_ (TextureAtlasAllocator.destruct_ pages4 s)) = [0].
Proof.
  intros Hhg Hvg s. subst s. simpl.
  rewrite insert_miss by reflexivity.
  erewrite insertFresh_placed;
    [ | simpl; lia | simpl; lia
      | rewrite advance_new_instance by (simpl; lia); reflexivity ].
  split; reflexivity.
Qed.

Lemma row_placement_exceeds_page_height_any_gap hg vg :
  0 <= hg -> 0 <= vg ->
  (fun t => (offsetOf t, TextureInfo.width t, TextureInfo.height t))
    <$> placements hg vg (pageFor hg vg) (threeImagesFor vg)
                   (TextureAtlasAllocator.construct (pageFor hg vg))
  = [(Offset.mk 0 0 0 0, 5, 1);
     (Offset.mk 0 0 (0 + (1 + vg)) 0, 5, 1);
     (Offset.mk 0 (0 + (5 + hg)) (0 + (1 + vg)) 0, 1, 10 + vg)] /\
  0 + (1 + vg) + (10 + vg) > height_ (pageFor hg vg).
Proof.
  intros Hhg Hvg. split; [|simpl; lia].
  set (cfg := pageFor hg vg).
  assert (width_ cfg = 10 + 2 * hg /\ height_ cfg = 10 + vg) as [Hwidth Hheight]
      by (split; reflexivity).
  assert (cursor (TextureAtlasAllocator.construct cfg) = (0, 0, 0, 0, 0) /\
          discarded_ (TextureAtlasAllocator.construct cfg) = ∅) as [Hc0 Hd0]
      by (split; reflexivity).
  generalize dependent (TextureAtlasAllocator.construct cfg). intros s0 Hc0 Hd0.
  clearbody cfg.
  injection Hc0 as Hi0 Hz0 Hx0 Hy0 Hm0.
  destruct (insert_in_row hg vg cfg 5 1 5 1 0%N [] 0 s0)
    as (n1 & s1 & Hins1 & Ho1 & Hw1 & Hh1 & Hc1 & Hd1);
    [unfold freeSlot; by rewrite Hd0 | lia..|].
  injection Hc1 as Hi1 Hz1 Hx1 Hy1 Hm1.
  destruct (insert_new_row hg vg cfg 5 1 5 1 0%N [] 1 s1)
    as (n2 & s2 & Hins2 & Ho2 & Hw2 & Hh2 & Hc2 & Hd2);
    [unfold freeSlot; by rewrite Hd1, Hd0 | lia..|].
  injection Hc2 as Hi2 Hz2 Hx2 Hy2 Hm2.
  destruct (insert_in_row hg vg cfg 1 (10 + vg) 1 (10 + vg) 0%N [] 2 s2)
    as (n3 & s3 & Hins3 & Ho3 & Hw3 & Hh3 & _);
    [unfold freeSlot; by rewrite Hd2, Hd1, Hd0 | lia..|].
  unfold threeImagesFor. cbn [placements exec].
  rewrite Hins1. cbn [placements exec]. rewrite Hins2. cbn [placements exec].
  rewrite Hins3. cbn [placements fmap list_fmap snd].
  rewrite Ho1, Ho2, Ho3, Hw1, Hw2, Hw3, Hh1, Hh2, Hh3.
  unfold TextureAtlasAllocator.offset.
  repeat f_equal; lia.
Qed.

(** ** The further properties at concrete runs *)

Lemma destroy_covers_created_no_clear_witness :
  let s := run 0 0 page10 threeImages (TextureAtlasAllocator.construct page10) in
  forallb (fun op => negb (isClear op)) threeImages = true /\
  destroyedIds (atlasBackend_ (TextureAtlasAllocator.destruct_ page10 s))
    = createdIds (atlasBackend_ s) /\
  NoDup (createdIds (atlasBackend_ s)).
Proof.
  split; [reflexivity|].
  apply (destroy_covers_created_no_clear 0 0 page10 threeImages). reflexivity.
Defined.

Lemma reuse_is_last_freed_first_witness :
  let s := run 0 0 page10 threeImages (TextureAtlasAllocator.construct page10) in
  (0%nat <> 1%nat /\
   TextureAtlasAllocator.findNode 0%nat s = Some firstOfThree /\
   TextureAtlasAllocator.findNode 1%nat s = Some secondOfThree /\
   TextureInfo.width secondOfThree = TextureInfo.width firstOfThree /\
   TextureInfo.height secondOfThree = TextureInfo.height firstOfThree) /\
  exists n1 s1 n2 s2,
    TextureAtlasAllocator.insert 0 0 page10 5 1 5 1 0%N [] 7
      (TextureAtlasAllocator.release 1%nat (TextureAtlasAllocator.release 0%nat s))
    = (Some n1, s1) /\
    offsetOf (snd n1) = offsetOf secondOfThree /\
    TextureAtlasAllocator.insert 0 0 page10 5 1 5 1 0%N [] 8 s1 = (Some n2, s2) /\
    offsetOf (snd n2) = offsetOf firstOfThree.
Proof.
  assert (TextureAtlasAllocator.findNode 0%nat
            (run 0 0 page10 threeImages (TextureAtlasAllocator.construct page10))
          = Some firstOfThree) as H0 by (vm_compute; reflexivity).
  assert (TextureAtlasAllocator.findNode 1%nat
            (run 0 0 page10 threeImages (TextureAtlasAllocator.construct page10))
          = Some secondOfThree) as H1 by (vm_compute; reflexivity).
  split; [repeat split; (assumption || reflexivity || discriminate)|].
  apply (reuse_is_last_freed_first 0 0 page10 0%nat 1%nat _
           firstOfThree secondOfThree 5 1 0%N [] 7 5 1 0%N [] 8);
    (assumption || reflexivity || discriminate).
Defined.

Lemma slots_within_width_and_depth_witness :
  let s := run 0 0 page10 threeImages (TextureAtlasAllocator.construct page10) in
  (0 <= 0 /\ 1 <= depth_ page10 /\ Forall sizeOk threeImages) /\
  cursorInPage page10 s /\ slotsSatisfy (slotInPage page10) s /\
  forall w h tw th f d u node s',
    0 <= w -> 0 <= h ->
    TextureAtlasAllocator.insert 0 0 page10 w h tw th f d u s = (Some node, s') ->
    slotInPage page10 (offsetOf (snd node)) w h.
Proof.
  assert (Forall sizeOk threeImages) as Hok by (repeat constructor; simpl; lia).
  split; [repeat split; (lia || exact Hok || (simpl; lia))|].
  apply (slots_within_width_and_depth 0 0 page10 threeImages);
    (lia || exact Hok || (simpl; lia)).
Defined.

Lemma wrapped_placement_within_height_witness :
  let s := TextureAtlasAllocator.construct page4 in
  exists s',
    (0 <= 1 <= height_ page4 /\
     TextureAtlasAllocator.getOffsetAndAdvance 0 0 page4 4 1 s
       = (Some (Offset.mk 0 0 0 0), s') /\
     ~ currentX_ s + 0 + 4 < width_ page4) /\
    Offset.y (Offset.mk 0 0 0 0) + 1 <= height_ page4.
Proof.
  eexists.
  assert (0 <= 1 <= height_ page4) as Hh by (simpl; lia).
  assert (~ currentX_ (TextureAtlasAllocator.construct page4) + 0 + 4 < width_ page4)
    as Hx by (simpl; lia).
  split; [split; [exact Hh | split; [reflexivity | exact Hx]]|].
  eapply (wrapped_placement_within_height 0 0 page4 4 1
            (TextureAtlasAllocator.construct page4) (Offset.mk 0 0 0 0));
    [exact Hh | reflexivity | exact Hx].
Defined.

Lemma advance_within_int_witness :
  let s := run 0 0 page10 threeImages (TextureAtlasAllocator.construct page10) in
  (smallConfig 0 0 page10 /\ Forall sizeOk threeImages /\
   0 <= 1 <= width_ page10 /\ 0 <= 1 <= height_ page10) /\
  cursorBounded 0 page10 s /\
  Forall intRange (advanceValues 0 0 page10 1 1 s).
Proof.
  assert (Forall sizeOk threeImages) as Hok by (repeat constructor; simpl; lia).
  assert (smallConfig 0 0 page10) as Hcfg by (unfold smallConfig; simpl; lia).
  split; [repeat split; (exact Hok || apply Hcfg || (simpl; lia))|].
  apply (advance_within_int 0 0 page10 threeImages 1 1);
    (exact Hok || exact Hcfg || (simpl; lia)).
Defined.

Lemma discarded_regions_do_not_overlap_live_records_witness :
  let s := run 0 0 page10 threeImagesOneReleased
               (TextureAtlasAllocator.construct page10) in
  (0 <= 0 /\ Forall sizeOk threeImagesOneReleased /\
   forallb (fun op => negb (isClear op)) threeImagesOneReleased = true) /\
  (forall n w h l o,
      n ∈ textureInfos_ s -> discarded_ s !! (w, h) = Some l -> o ∈ l ->
      ~ overlapR (rectOf (snd n)) (o, w, h)) /\
  apart (freeRects (discarded_ s)).
Proof.
  assert (Forall sizeOk threeImagesOneReleased) as Hok
    by (repeat constructor; simpl; lia).
  split; [repeat split; (lia || exact Hok)|].
  apply (discarded_regions_do_not_overlap_live_records
           0 0 page10 threeImagesOneReleased);
    (lia || exact Hok || reflexivity).
Defined.

Lemma release_twice_is_release_once_witness :
  let s := run 0 0 page10 threeImages (TextureAtlasAllocator.construct page10) in
  reachable 0 0 page10 s /\
  TextureAtlasAllocator.findNode 1%nat (TextureAtlasAllocator.release 1%nat s)
  = None /\
  TextureAtlasAllocator.release 1%nat (TextureAtlasAllocator.release 1%nat s)
  = TextureAtlasAllocator.release 1%nat s /\
  ((nextPtr_ s <= 1)%nat -> TextureAtlasAllocator.release 1%nat s = s).
Proof.
  assert (reachable 0 0 page10
            (run 0 0 page10 threeImages (TextureAtlasAllocator.construct page10)))
    as Hr by (exists threeImages; reflexivity).
  split; [exact Hr|].
  apply (release_twice_is_release_once 0 0 page10 1%nat _ Hr).
Defined.

Lemma free_map_has_no_empty_vector_witness :
  let s := run 0 0 page10 threeImagesOneReleased
               (TextureAtlasAllocator.construct page10) in
  reachable 0 0 page10 s /\
  noEmptyVector s /\
  forall w h, freeSlot s w h = None <-> discarded_ s !! (w, h) = None.
Proof.
  assert (reachable 0 0 page10
            (run 0 0 page10 threeImagesOneReleased
                 (TextureAtlasAllocator.construct page10)))
    as Hr by (exists threeImagesOneReleased; reflexivity).
  split; [exact Hr|].
  apply (free_map_has_no_empty_vector 0 0 page10 _ Hr).
Defined.

Lemma atlases_are_created_before_use_witness :
  let s := run 0 0 pages4 twoSquares (TextureAtlasAllocator.construct pages4) in
  reachable 0 0 pages4 s /\
  currentInstanceId_ s ∈ createdIds (atlasBackend_ s) /\
  slotsSatisfy (fun o _ _ => Offset.i o ∈ createdIds (atlasBackend_ s)) s /\
  uploadsFollowCreation [] (atlasBackend_ s).
Proof.
  assert (reachable 0 0 pages4
            (run 0 0 pages4 twoSquares (TextureAtlasAllocator.construct pages4)))
    as Hr by (exists twoSquares; reflexivity).
  split; [exact Hr|].
  apply (atlases_are_created_before_use 0 0 pages4 _ Hr).
Defined.

Lemma exhausted_allocator_reuses_released_slot_witness :
  let s := run 0 0 page4 twoSquares (TextureAtlasAllocator.construct page4) in
  (0 <= 0 /\ exhausted page4 s /\
   TextureAtlasAllocator.findNode 0%nat s = Some firstSquare) /\
  (exists node s',
      TextureAtlasAllocator.insert 0 0 page4 3 3 3 3 0%N [] 2
        (TextureAtlasAllocator.release 0%nat s) = (Some node, s') /\
      offsetOf (snd node) = offsetOf firstSquare /\
      atlasBackend_ s' =
        atlasBackend_ s ++ [UploadTexture (fst node) (snd node) [] 0%N] /\
      exhausted page4 s') /\
  (forall w h tw' th' f' d' u',
      0 <= w -> 0 <= h ->
      freeSlot (TextureAtlasAllocator.release 0%nat s) w h = None ->
      TextureAtlasAllocator.insert 0 0 page4 w h tw' th' f' d' u'
        (TextureAtlasAllocator.release 0%nat s)
      = (None, TextureAtlasAllocator.release 0%nat s)).
Proof.
  assert (exhausted page4
            (run 0 0 page4 twoSquares (TextureAtlasAllocator.construct page4)))
    as He by (vm_compute; intuition (reflexivity || discriminate)).
  assert (TextureAtlasAllocator.findNode 0%nat
            (run 0 0 page4 twoSquares (TextureAtlasAllocator.construct page4))
          = Some firstSquare) as Hf by (vm_compute; reflexivity).
  split; [repeat split; (lia || apply He || exact Hf)|].
  apply (exhausted_allocator_reuses_released_slot
           0 0 page4 0%nat firstSquare 3 3 0%N [] 2 _);
    (lia || exact He || exact Hf).
Defined.

Lemma cursor_never_moves_back_witness :
  (0 <= 0 /\ 1 <= depth_ page10 /\
   Forall sizeOk insertedAndReleased /\ Forall sizeOk threeImages /\
   forallb (fun op => negb (isClear op)) threeImages = true) /\
  cursorNotBefore
    (run 0 0 page10 insertedAndReleased (TextureAtlasAllocator.construct page10))
    (run 0 0 page10 threeImages
         (run 0 0 page10 insertedAndReleased
              (TextureAtlasAllocator.construct page10))).
Proof.
  assert (Forall sizeOk insertedAndReleased) as Hb
    by (repeat constructor; simpl; lia).
  assert (Forall sizeOk threeImages) as Hok
    by (repeat constructor; simpl; lia).
  split; [repeat split; (lia || exact Hb || exact Hok || (simpl; lia))|].
  apply (cursor_never_moves_back 0 0 page10 insertedAndReleased threeImages);
    (lia || exact Hb || exact Hok || reflexivity || (simpl; lia)).
Defined.

Lemma insert_after_clear_starts_at_origin_witness :
  let s := run 0 0 page10 threeImages (TextureAtlasAllocator.construct page10) in
  (3 <= width_ page10 /\ 3 <= height_ page10 /\ 0 + 0 + 3 < width_ page10) /\
  exists node s',
    TextureAtlasAllocator.insert 0 0 page10 3 3 3 3 0%N [] 4
      (TextureAtlasAllocator.clear page10 s) = (Some node, s') /\
    offsetOf (snd node) = Offset.mk (instanceBaseId_ page10) 0 0 0 /\
    textureInfos_ s' = textureInfos_ s ++ [node] /\
    atlasBackend_ s' =
      atlasBackend_ s ++ [UploadTexture (fst node) (snd node) [] 0%N].
Proof.
  split; [simpl; lia|].
  apply (insert_after_clear_starts_at_origin 0 0 page10 3 3 3 3 0%N [] 4);
    simpl; lia.
Defined.

Lemma created_atlases_are_in_range_witness :
  let s := run 0 0 pages4 twoSquares (TextureAtlasAllocator.construct pages4) in
  (1 <= maxInstances_ pages4 /\ reachable 0 0 pages4 s) /\
  forall id, id ∈ createdIds (atlasBackend_ s) -> instanceInRange pages4 id.
Proof.
  assert (reachable 0 0 pages4
            (run 0 0 pages4 twoSquares (TextureAtlasAllocator.construct pages4)))
    as Hr by (exists twoSquares; reflexivity).
  assert (1 <= maxInstances_ pages4) as Hm by (simpl; lia).
  split; [split; [exact Hm | exact Hr]|].
  apply (created_atlases_are_in_range 0 0 pages4 _ Hm Hr).
Defined.

Lemma inserted_record_describes_request_witness :
  exists node s',
    TextureAtlasAllocator.insert 0 0 page10 3 2 6 4 0%N [] 5
      (TextureAtlasAllocator.construct page10) = (Some node, s') /\
    snd node =
      TextureInfo.mk (TextureInfo.atlas (snd node)) (name_ page10)
                     (TextureInfo.x (snd node)) (TextureInfo.y (snd node))
                     (TextureInfo.z (snd node))
                     3 2 6 4
                     (TextureInfo.x (snd node), width_ page10)
                     (TextureInfo.y (snd node), height_ page10)
                     (3, width_ page10) (2, height_ page10) 5.
Proof.
  destruct (TextureAtlasAllocator.insert 0 0 page10 3 2 6 4 0%N [] 5
              (TextureAtlasAllocator.construct page10))
    as [[node|] s'] eqn:E.
  - exists node, s'. split; [reflexivity|].
    apply (inserted_record_describes_request 0 0 page10 3 2 6 4 0%N [] 5 _ _ _ E).
  - exfalso. vm_compute in E. discriminate E.
Defined.

Lemma release_then_insert_restores_free_map_witness :
  let s := run 0 0 page10 threeImages (TextureAtlasAllocator.construct page10) in
  (reachable 0 0 page10 s /\
   TextureAtlasAllocator.findNode 0%nat s = Some firstOfThree) /\
  exists node s',
    TextureAtlasAllocator.insert 0 0 page10 5 1 5 1 0%N [] 6
      (TextureAtlasAllocator.release 0%nat s) = (Some node, s') /\
    offsetOf (snd node) = offsetOf firstOfThree /\
    discarded_ s' = discarded_ s /\
    cursor s' = cursor s /\
    exists front rest,
      textureInfos_ s = front ++ (0%nat, firstOfThree) :: rest /\
      textureInfos_ s' = front ++ rest ++ [node] /\
      0%nat ∉ fst <$> (front ++ rest).
Proof.
  assert (reachable 0 0 page10
            (run 0 0 page10 threeImages (TextureAtlasAllocator.construct page10)))
    as Hr by (exists threeImages; reflexivity).
  assert (TextureAtlasAllocator.findNode 0%nat
            (run 0 0 page10 threeImages (TextureAtlasAllocator.construct page10))
          = Some firstOfThree) as Hf by (vm_compute; reflexivity).
  split; [split; [exact Hr | exact Hf]|].
  apply (release_then_insert_restores_free_map
           0 0 page10 0%nat firstOfThree 5 1 0%N [] 6 _ Hr Hf).
Defined.

Lemma adjacent_placements_are_one_gap_apart_witness :
  exists s1,
    TextureAtlasAllocator.getOffsetAndAdvance 0 0 page10 5 1
      (TextureAtlasAllocator.construct page10) = (Some (Offset.mk 0 0 0 0), s1) /\
    (currentX_ s1 + 0 + 1 < width_ page10 ->
     exists s2,
       TextureAtlasAllocator.getOffsetAndAdvance 0 0 page10 1 1 s1
       = (Some (Offset.mk 0 (0 + (5 + 0)) 0 0), s2)) /\
    (~ currentX_ s1 + 0 + 1 < width_ page10 ->
     currentY_ s1 + maxTextureHeightInCurrentRow_ s1 + 0 + 1 < height_ page10 ->
     exists s2,
       TextureAtlasAllocator.getOffsetAndAdvance 0 0 page10 1 1 s1
       = (Some (Offset.mk 0 0 (0 + (maxTextureHeightInCurrentRow_ s1 + 0)) 0),
          s2)).
Proof.
  destruct (TextureAtlasAllocator.getOffsetAndAdvance 0 0 page10 5 1
              (TextureAtlasAllocator.construct page10)) as [o s1] eqn:E.
  assert (o = Some (Offset.mk 0 0 0 0)) as ->
    by (apply (f_equal fst) in E; vm_compute in E; symmetry; exact E).
  exists s1. split; [reflexivity|].
  apply (adjacent_placements_are_one_gap_apart
           0 0 page10 5 1 1 1 _ (Offset.mk 0 0 0 0) s1 E).
Defined.

Lemma page_sized_image_never_fits_single_page_witness :
  let s := run 0 0 page4 twoSquares (TextureAtlasAllocator.construct page4) in
  (0 <= 0 /\ depth_ page4 = 1 /\ maxInstances_ page4 = 1 /\
   0 <= width_ page4 /\ 0 <= height_ page4 /\ Forall sizeOk twoSquares /\
   freeSlot s (width_ page4) (height_ page4) = None) /\
  fst (TextureAtlasAllocator.insert 0 0 page4 (width_ page4) (height_ page4)
         4 4 0%N [] 3 s) = None.
Proof.
  assert (Forall sizeOk twoSquares) as Hok by (repeat constructor; simpl; lia).
  assert (freeSlot (run 0 0 page4 twoSquares (TextureAtlasAllocator.construct page4))
                   (width_ page4) (height_ page4) = None) as Hf
    by (vm_compute; reflexivity).
  split; [repeat split; (exact Hok || exact Hf || (simpl; lia))|].
  apply (page_sized_image_never_fits_single_page 0 0 page4 twoSquares 4 4 0%N [] 3);
    (exact Hok || exact Hf || reflexivity || (simpl; lia)).
Defined.
